(** * seg_n.py — the cell detector: a graph declaration over Keras

    The module declares a network topology by calling layer constructors of
    an external framework.  The embedding keeps that split: the code of
    [residual_block], [cell_detector] and the [__main__] smoke test is a
    program over a signature of framework calls ([call]); what a call does
    is given by a handler.  The handler [keras] models the framework's graph
    construction, its shape inference and its session. *)

From Stdlib Require Import Ascii ZArith QArith Qcanon Lia.
From stdpp Require Import base strings gmap list pretty numbers.

Local Open Scope string_scope.
Local Open Scope positive_scope.

(** ** Shapes and layer configurations *)

(** [input_shape=(H, W, C)]: the tuple handed to [Input]. *)
Definition shape3 : Type := positive * positive * positive.

(** A channels-last 4-D tensor shape; the batch size of a Keras [Input] is
    unknown ([None]). *)
Record shape : Type := Shape {
  batch : option positive;
  height : positive;
  width : positive;
  chans : positive
}.

Inductive padding : Type := same | valid.
Inductive interpolation : Type := nearest | bilinear.

(** The layers [seg_n.py] constructs, with the arguments it passes. *)
Inductive layer : Type :=
| LInput (input_shape : shape3)
| LELU
| LConv2D (filters : positive) (kernel_size strides : positive * positive)
          (pad : padding) (name : option string)
| LDropout (rate : Qc)
| LLambdaScale (factor : Qc)
| LAdd
| LAveragePooling2D (pool_size : positive * positive) (pad : padding)
| LUpSampling2D (size : positive * positive) (interp : interpolation)
| LConcatenate (axis : Z).

(** ** Framework calls and programs over them *)

(** The kinds of objects the framework hands back. *)
Record handles : Type := Handles {
  tensor : Type;
  model : Type;
  ndarray : Type
}.

Inductive call (H : handles) : Type → Type :=
| Apply (l : layer) (inputs : list (tensor H)) : call H (tensor H)
| NewModel (inputs outputs : tensor H) (name : string) : call H (model H)
| CallModel (m : model H) (x : tensor H) : call H (tensor H)
| ResetDefaultGraph : call H unit
| SessionEnter : call H unit
| SessionExit : call H unit
| Seed (n : N) : call H unit
| Placeholder (dtype : string) (s : shape) : call H (tensor H)
| Randn (dims : list positive) : call H (ndarray H)
| RunInit : call H unit
| Run (fetches : list (tensor H)) (feed : list (tensor H * ndarray H))
      (learning_phase : Z) : call H (list (ndarray H))
| Item (l : list (ndarray H)) (i : Z) : call H (ndarray H)
| Index (a : ndarray H) (i : Z) : call H (ndarray H)
| Str (a : ndarray H) : call H string
| Print (line : string) : call H unit.

Arguments Apply {H} l inputs.
Arguments NewModel {H} inputs outputs name.
Arguments CallModel {H} m x.
Arguments ResetDefaultGraph {H}.
Arguments SessionEnter {H}.
Arguments SessionExit {H}.
Arguments Seed {H} n.
Arguments Placeholder {H} dtype s.
Arguments Randn {H} dims.
Arguments RunInit {H}.
Arguments Run {H} fetches feed learning_phase.
Arguments Item {H} l i.
Arguments Index {H} a i.
Arguments Str {H} a.
Arguments Print {H} line.

(** Straight-line Python: a sequence of framework calls, each continuing
    with the value the call returned.  There is no constructor that catches
    an exception. *)
Inductive prog (H : handles) (A : Type) : Type :=
| Ret (a : A)
| Do {B : Type} (c : call H B) (k : B → prog H A).

Arguments Ret {H A} a.
Arguments Do {H A B} c k.

Fixpoint bind {H A B} (p : prog H A) (f : A → prog H B) : prog H B :=
  match p with
  | Ret a => f a
  | Do c k => Do c (λ b, bind (k b) f)
  end.

Global Instance prog_ret {H} : MRet (prog H) := λ A a, Ret a.
Global Instance prog_bind {H} : MBind (prog H) := λ A B f p, bind p f.

Definition perform {H B} (c : call H B) : prog H B := Do c Ret.

(** What running a program gives: a value, or the exception raised. *)
Inductive outcome (E A : Type) : Type :=
| Ok (a : A)
| Raise (e : E).

Arguments Ok {E A} a.
Arguments Raise {E A} e.

Definition handler (H : handles) (S E : Type) : Type :=
  ∀ B, call H B → S → outcome E (B * S).

Fixpoint interp {H S E A} (h : handler H S E) (p : prog H A) (s : S)
  : outcome E (A * S) :=
  match p with
  | Ret a => Ok (a, s)
  | Do c k =>
      match h _ c s with
      | Ok (b, s') => interp h (k b) s'
      | Raise e => Raise e
      end
  end.

(** ** The source: seg_n.py *)

Definition nl : string := String "010"%char EmptyString.

Section Source.
Context {H : handles}.

(** Layer constructors applied to their input, as the source writes them. *)
Definition Input (input_shape : shape3) : prog H (tensor H) :=
  perform (Apply (LInput input_shape) []).
Definition ELU (X : tensor H) : prog H (tensor H) :=
  perform (Apply LELU [X]).
Definition Conv2D (filters : positive) (kernel_size strides : positive * positive)
    (pad : padding) (name : option string) (X : tensor H) : prog H (tensor H) :=
  perform (Apply (LConv2D filters kernel_size strides pad name) [X]).
Definition Dropout (rate : Qc) (X : tensor H) : prog H (tensor H) :=
  perform (Apply (LDropout rate) [X]).
(** [Lambda(lambda x: x * scaling_factor)] *)
Definition Lambda_scale (factor : Qc) (X : tensor H) : prog H (tensor H) :=
  perform (Apply (LLambdaScale factor) [X]).
Definition Add (Xs : list (tensor H)) : prog H (tensor H) :=
  perform (Apply LAdd Xs).
Definition AveragePooling2D (pool_size : positive * positive) (pad : padding)
    (X : tensor H) : prog H (tensor H) :=
  perform (Apply (LAveragePooling2D pool_size pad) [X]).
Definition UpSampling2D (size : positive * positive) (interp : interpolation)
    (X : tensor H) : prog H (tensor H) :=
  perform (Apply (LUpSampling2D size interp) [X]).
Definition concatenate (Xs : list (tensor H)) (axis : Z) : prog H (tensor H) :=
  perform (Apply (LConcatenate axis) Xs).
Definition Model (inputs outputs : tensor H) (name : string) : prog H (model H) :=
  perform (NewModel inputs outputs name).

(** Conv2D's defaults: [strides=(1, 1)], [padding='valid']. *)
Definition default_strides : positive * positive := (1, 1).
Definition default_padding : padding := valid.

Definition scaling_factor : Qc := Q2Qc (3 # 10).
Definition dropout_rate : Qc := Q2Qc (2 # 10).

Definition residual_block (X : tensor H) (filters : positive * positive)
    (channels : positive) (stage : Z) : prog H (tensor H) :=
  let X_shortcut := X in
  let '(F1, F2) := filters in
  let conv_base_name := "res_" +:+ pretty stage +:+ "_branch_" in
  X ← ELU X;
  X ← Conv2D F1 (3, 3) (1, 1) same (Some (conv_base_name +:+ "2_a")) X;
  X ← Dropout dropout_rate X;
  X ← ELU X;
  X ← Conv2D F2 (3, 3) (1, 1) same (Some (conv_base_name +:+ "2_b")) X;
  X ← Lambda_scale scaling_factor X;
  X ← Add [X; X_shortcut];
  X ← Conv2D channels (1, 1) default_strides default_padding None X;
  mret X.

Definition default_input_shape : shape3 := (128, 128, 3).

Definition cell_detector (input_shape : shape3) : prog H (model H) :=
  input_layer ← Input input_shape;
  X ← Conv2D 32 (3, 3) (1, 1) same None input_layer;
  res_out_1 ← residual_block X (32, 32) 32 1;
  X ← Conv2D 64 (3, 3) (1, 1) same None res_out_1;
  (* DownSampling block 1 *)
  X ← AveragePooling2D (2, 2) valid X;
  res_out_2 ← residual_block X (64, 64) 64 2;
  X ← Conv2D 128 (3, 3) (1, 1) same None res_out_2;
  (* DownSampling block 2 *)
  X ← AveragePooling2D (2, 2) valid X;
  res_out_3 ← residual_block X (128, 128) 128 3;
  X ← Conv2D 256 (3, 3) (1, 1) same None res_out_3;
  (* DownSampling block 3 *)
  X ← AveragePooling2D (2, 2) valid X;
  res_out_4 ← residual_block X (256, 256) 256 4;
  (* DownSampling block 4 *)
  X ← AveragePooling2D (2, 2) valid X;
  X ← residual_block X (256, 256) 256 5;
  (* UpSampling block 1 *)
  X ← UpSampling2D (2, 2) bilinear X;
  X ← concatenate [res_out_4; X] (-1);
  X ← residual_block X (512, 512) 256 6;
  (* UpSampling block 2 *)
  X ← UpSampling2D (2, 2) bilinear X;
  X ← concatenate [res_out_3; X] (-1);
  X ← residual_block X (384, 384) 128 7;
  (* UpSampling block 3 *)
  X ← UpSampling2D (2, 2) bilinear X;
  X ← concatenate [res_out_2; X] (-1);
  X ← residual_block X (192, 192) 64 8;
  (* UpSampling block 4 *)
  X ← UpSampling2D (2, 2) bilinear X;
  X ← concatenate [res_out_1; X] (-1);
  X ← residual_block X (96, 96) 32 9;
  (* Conv to output map *)
  X ← Conv2D 1 (3, 3) (1, 1) same None X;
  (* Create model *)
  model ← Model input_layer X "CellDetector";
  mret model.

(** [out[0][1][1][0]] followed by [str]. *)
Definition str_out_0_1_1_0 (out : list (ndarray H)) : prog H string :=
  a ← perform (Item out 0);
  a ← perform (Index a 1);
  a ← perform (Index a 1);
  a ← perform (Index a 0);
  perform (Str a).

Definition test_residual_block : prog H unit :=
  perform (Print (nl +:+ "Testing residual block:"));;
  perform ResetDefaultGraph;;
  perform SessionEnter;;
  perform (Seed 123);;
  A_prev ← perform (Placeholder "float" (Shape (Some 5) 128 128 3));
  X ← perform (Randn [5; 128; 128; 3]);
  A ← residual_block A_prev (3, 3) 3 1;
  perform RunInit;;
  out ← perform (Run [A] [(A_prev, X)] 0);
  s ← str_out_0_1_1_0 out;
  perform (Print ("out = " +:+ s));;
  perform (Print ("Test complete: PASSED" +:+ nl));;
  perform SessionExit.

Definition test_cell_detector : prog H unit :=
  perform (Print (nl +:+ "Testing cell detector:"));;
  perform ResetDefaultGraph;;
  perform SessionEnter;;
  perform (Seed 123);;
  A_prev ← perform (Placeholder "float" (Shape (Some 5) 128 128 3));
  X ← perform (Randn [5; 128; 128; 3]);
  model ← cell_detector default_input_shape;
  A ← perform (CallModel model A_prev);
  perform RunInit;;
  out ← perform (Run [A] [(A_prev, X)] 0);
  s ← str_out_0_1_1_0 out;
  perform (Print ("out = " +:+ s));;
  perform (Print ("Test complete: PASSED" +:+ nl));;
  perform SessionExit.

Definition main : prog H unit :=
  test_residual_block;;
  test_cell_detector.

(** Executing the module: the two [def]s bind names, and the smoke test
    runs under [if __name__=='__main__']. *)
Definition module_body (__name__ : string) : prog H unit :=
  if decide (__name__ = "__main__") then main else mret tt.
End Source.

(** ** The framework: graph construction, shape inference, session

    Keras 2.2 on the TensorFlow 1.x backend, as far as [seg_n.py] drives it.
    Dimensions of a static shape are positive integers; a window that does
    not fit its input is the backend's "negative dimension size" error.
    [NestedGraph] is the assertion [tf.reset_default_graph] fails with
    while a session is entered. *)

Inductive error : Type :=
| NegativeDimension (l : layer) (s : shape)
| IncompatibleShapes (l : layer) (ss : list shape)
| WrongInputCount (l : layer) (n : nat)
| BadAxis (axis : Z)
| NotAnInput
| GraphDisconnected
| NoSession
| MustFeed (id : nat)
| FeedShape (id : nat) (dims : list positive)
| Uninitialized (name : string)
| IndexError (i : Z)
| NestedGraph.

Definition is_shape_error (e : error) : bool :=
  match e with
  | NegativeDimension _ _ | IncompatibleShapes _ _ => true
  | _ => false
  end.

(** [conv_utils.conv_output_length], with the backend's refusal of a window
    larger than the input under 'valid' padding. *)
Definition out_len (pad : padding) (n k s : positive) : option positive :=
  match pad with
  | same => Some (Z.to_pos ((Z.pos n + Z.pos s - 1) / Z.pos s))
  | valid =>
      if (n <? k)%positive then None
      else Some (Z.to_pos ((Z.pos n - Z.pos k) / Z.pos s + 1))
  end.

Definition windowed (l : layer) (pad : padding) (k st : positive * positive)
    (c : positive) (s : shape) : outcome error shape :=
  match out_len pad (height s) k.1 st.1, out_len pad (width s) k.2 st.2 with
  | Some h, Some w => Ok (Shape (batch s) h w c)
  | _, _ => Raise (NegativeDimension l s)
  end.

Definition opos_eqb (a b : option positive) : bool :=
  match a, b with
  | Some x, Some y => (x =? y)%positive
  | None, None => true
  | _, _ => false
  end.

(** [_Merge._compute_elemwise_op_output_shape]: an axis of size 1 is
    broadcast, other sizes have to agree. *)
Definition broadcast_dim (i j : positive) : option positive :=
  if (i =? 1)%positive then Some j
  else if (j =? 1)%positive then Some i
  else if (i =? j)%positive then Some i
  else None.

(** [_Merge.build]: the known batch sizes have to agree. *)
Definition merge_batch (a b : option positive) : option (option positive) :=
  match a, b with
  | Some x, Some y => if (x =? y)%positive then Some (Some x) else None
  | Some x, None | None, Some x => Some (Some x)
  | None, None => Some None
  end.

Definition merge_shape (acc : option shape) (s : shape) : option shape :=
  match acc with
  | None => None
  | Some a =>
      match merge_batch (batch a) (batch s), broadcast_dim (height a) (height s),
            broadcast_dim (width a) (width s), broadcast_dim (chans a) (chans s) with
      | Some b, Some h, Some w, Some c => Some (Shape b h w c)
      | _, _, _, _ => None
      end
  end.

(** [Concatenate.build]: with the concatenation axis removed, all input
    shapes have to be the same. *)
Definition reduced (ax : Z) (s : shape) : list (option positive) :=
  if (ax =? 0)%Z then [Some (height s); Some (width s); Some (chans s)]
  else if (ax =? 1)%Z then [batch s; Some (width s); Some (chans s)]
  else if (ax =? 2)%Z then [batch s; Some (height s); Some (chans s)]
  else [batch s; Some (height s); Some (width s)].

Fixpoint reduced_eqb (a b : list (option positive)) : bool :=
  match a, b with
  | [], [] => true
  | x :: a, y :: b => opos_eqb x y && reduced_eqb a b
  | _, _ => false
  end.

Definition oadd (a b : option positive) : option positive :=
  match a, b with
  | Some x, Some y => Some (x + y)
  | _, _ => None
  end.

Definition concat_shape (ax : Z) (a s : shape) : shape :=
  if (ax =? 0)%Z then Shape (oadd (batch a) (batch s)) (height a) (width a) (chans a)
  else if (ax =? 1)%Z then Shape (batch a) (height a + height s) (width a) (chans a)
  else if (ax =? 2)%Z then Shape (batch a) (height a) (width a + width s) (chans a)
  else Shape (batch a) (height a) (width a) (chans a + chans s).

Definition normal_axis (axis : Z) : option Z :=
  let ax := if (axis <? 0)%Z then (axis + 4)%Z else axis in
  if (0 <=? ax)%Z && (ax <? 4)%Z then Some ax else None.

(** The output shape of a layer applied to inputs of the given shapes, or
    the exception its construction raises. *)
Definition infer_shape (l : layer) (ins : list shape) : outcome error shape :=
  match l, ins with
  | LInput (h, w, c), [] => Ok (Shape None h w c)
  | LELU, [s] | LDropout _, [s] | LLambdaScale _, [s] => Ok s
  | LConv2D filters k st pad _, [s] => windowed l pad k st filters s
  | LAveragePooling2D k pad, [s] => windowed l pad k k (chans s) s
  | LUpSampling2D (sh, sw) _, [s] =>
      Ok (Shape (batch s) (height s * sh) (width s * sw) (chans s))
  | LAdd, s :: s' :: rest =>
      match fold_left merge_shape (s' :: rest) (Some s) with
      | Some r => Ok r
      | None => Raise (IncompatibleShapes l ins)
      end
  | LConcatenate axis, s :: s' :: rest =>
      match normal_axis axis with
      | None => Raise (BadAxis axis)
      | Some ax =>
          if forallb (λ t, reduced_eqb (reduced ax s) (reduced ax t)) (s' :: rest)
          then Ok (fold_left (concat_shape ax) (s' :: rest) s)
          else Raise (IncompatibleShapes l ins)
      end
  | _, _ => Raise (WrongInputCount l (length ins))
  end.

(** [K.get_uid]: layers without a [name] argument are numbered per class. *)
Definition layer_prefix (l : layer) : string :=
  match l with
  | LInput _ => "input"
  | LELU => "elu"
  | LConv2D _ _ _ _ _ => "conv2d"
  | LDropout _ => "dropout"
  | LLambdaScale _ => "lambda"
  | LAdd => "add"
  | LAveragePooling2D _ _ => "average_pooling2d"
  | LUpSampling2D _ _ => "up_sampling2d"
  | LConcatenate _ => "concatenate"
  end.

Definition explicit_name (l : layer) : option string :=
  match l with
  | LConv2D _ _ _ _ name => name
  | _ => None
  end.

Definition get_uid (prefix : string) (uids : gmap string nat) : nat * gmap string nat :=
  let n := S (default 0%nat (uids !! prefix)) in (n, <[prefix := n]> uids).

Definition layer_name (l : layer) (uids : gmap string nat) : string * gmap string nat :=
  match explicit_name l with
  | Some name => (name, uids)
  | None =>
      let '(n, uids') := get_uid (layer_prefix l) uids in
      (layer_prefix l +:+ "_" +:+ pretty n, uids')
  end.

Inductive op : Type :=
| OpPlaceholder (dtype : string)
| OpLayer (l : layer).

(** A node of the default graph: what was applied, under which layer name,
    to the outputs of which earlier nodes. *)
Record node : Type := Node {
  n_op : op;
  n_name : string;
  n_inputs : list nat;
  n_shape : shape
}.

Record ktensor : Type := Tensor { t_id : nat; t_shape : shape }.

Record kmodel : Type := KModel {
  m_name : string;
  m_input : ktensor;
  m_output : ktensor;
  m_layers : list (nat * node)
}.

Record karray (V : Type) : Type := NDArray { a_dims : list positive; a_val : V }.
Arguments NDArray {V} a_dims a_val.
Arguments a_dims {V} k.
Arguments a_val {V} k.

(** The state of the framework as the module sees it.  [rng] is numpy's
    generator as far as the module itself uses it: the seed last given to
    [np.random.seed] and the number of arrays drawn with [np.random.randn]
    since.  The op seeds Keras takes from the same generator when it builds
    a convolution or applies Dropout are not tracked; in [seg_n.py] no
    array is drawn between such a layer and the next [np.random.seed]. *)
Record world : Type := World {
  uids : gmap string nat;
  graph : list node;
  session : bool;
  initialized : nat;
  rng : option N * nat;
  stdout : list string
}.

Definition fresh_world : world := World ∅ [] false 0 (None, 0%nat) [].

Definition add_node (n : node) (uids' : gmap string nat) (w : world) : world :=
  World uids' (graph w ++ [n]) (session w) (initialized w) (rng w) (stdout w).

Definition apply_layer (l : layer) (name : string) (inputs : list ktensor)
    (uids' : gmap string nat) (w : world) : outcome error (ktensor * world) :=
  match infer_shape l (t_shape <$> inputs) with
  | Ok s =>
      Ok (Tensor (length (graph w)) s,
          add_node (Node (OpLayer l) name (t_id <$> inputs) s) uids' w)
  | Raise e => Raise e
  end.

(** [Model(inputs=..., outputs=...)] walks back from the output and keeps
    the nodes it reaches. *)
Definition mem (i : nat) (l : list nat) : bool := existsb (Nat.eqb i) l.

Fixpoint gather (rev_nodes : list (nat * node)) (needed : list nat)
  : list (nat * node) :=
  match rev_nodes with
  | [] => []
  | (i, n) :: rest =>
      if mem i needed
      then gather rest (n_inputs n ++ needed) ++ [(i, n)]
      else gather rest needed
  end.

Definition is_source (n : node) : bool :=
  match n_inputs n with [] => true | _ => false end.

Definition is_input_node (n : node) : bool :=
  match n_op n with OpLayer (LInput _) => true | _ => false end.

Definition connected (input : nat) (layers : list (nat * node)) : bool :=
  forallb (λ jn, negb (is_source jn.2) || (jn.1 =? input)%nat) layers.

Definition new_model (i o : ktensor) (name : string) (w : world)
  : outcome error (kmodel * world) :=
  match graph w !! t_id i with
  | Some n =>
      if is_input_node n then
        let layers := gather (reverse (imap pair (graph w))) [t_id o] in
        if connected (t_id i) layers then Ok (KModel name i o layers, w)
        else Raise GraphDisconnected
      else Raise NotAnInput
  | None => Raise NotAnInput
  end.

(** [model(x)]: the model's layers are applied again to the new input
    ([Network.run_internal_graph]); the layers, and so their names and
    weights, are shared with the first application.  The layers are taken
    here in the order of their creation; Keras takes them by depth, another
    order in which a layer comes after those it reads, so that the nodes
    added are the same up to their order.  The new input is assumed to have
    the number of channels the kernels were built for. *)
Fixpoint tlookup (i : nat) (tmap : list (nat * ktensor)) : option ktensor :=
  match tmap with
  | [] => None
  | (j, t) :: rest => if (i =? j)%nat then Some t else tlookup i rest
  end.

Fixpoint replay (layers : list (nat * node)) (tmap : list (nat * ktensor))
    (w : world) : outcome error (list (nat * ktensor) * world) :=
  match layers with
  | [] => Ok (tmap, w)
  | (i, n) :: rest =>
      match n_op n with
      | OpPlaceholder _ => replay rest tmap w
      | OpLayer l =>
          if is_input_node n then replay rest tmap w
          else
            match mapM (λ j, tlookup j tmap) (n_inputs n) with
            | None => Raise GraphDisconnected
            | Some ins =>
                match apply_layer l (n_name n) ins (uids w) w with
                | Ok (t, w') => replay rest ((i, t) :: tmap) w'
                | Raise e => Raise e
                end
            end
      end
  end.

Definition call_model (m : kmodel) (x : ktensor) (w : world)
  : outcome error (ktensor * world) :=
  match replay (m_layers m) [(t_id (m_input m), x)] w with
  | Ok (tmap, w') =>
      match tlookup (t_id (m_output m)) tmap with
      | Some t => Ok (t, w')
      | None => Raise GraphDisconnected
      end
  | Raise e => Raise e
  end.

(** ** Numerics

    What the layers compute is left to the backend: an interpretation gives
    each layer its forward function on values.  A convolution is keyed by
    the name of its layer, whose weights it uses. *)
Record numerics (V : Type) : Type := Numerics {
  velu : V → V;
  vconv : layer → string → V → V;
  vdropout : Qc → V → V;
  vscale : Qc → V → V;
  vadd : V → V → V;
  vpool : layer → V → V;
  vupsample : layer → V → V;
  vconcat : Z → list V → V;
  vrandn : option N → nat → list positive → V;
  vindex : V → Z → V;
  vstr : V → string
}.
Arguments velu {V} n. Arguments vconv {V} n. Arguments vdropout {V} n.
Arguments vscale {V} n. Arguments vadd {V} n. Arguments vpool {V} n.
Arguments vupsample {V} n. Arguments vconcat {V} n. Arguments vrandn {V} n.
Arguments vindex {V} n. Arguments vstr {V} n.

(** The objects the Keras handler hands back. *)
Definition KH (V : Type) : handles := Handles ktensor kmodel (karray V).

Section Forward.
Context {V : Type} (num : numerics V).

(** The forward function of a layer; [Dropout] is the identity outside
    training ([K.learning_phase(): 0]). *)
Definition layer_sem (l : layer) (name : string) (training : bool)
    (vs : list V) : option V :=
  match l, vs with
  | LELU, [v] => Some (velu num v)
  | LConv2D _ _ _ _ _, [v] => Some (vconv num l name v)
  | LDropout rate, [v] => Some (if training then vdropout num rate v else v)
  | LLambdaScale factor, [v] => Some (vscale num factor v)
  | LAdd, v :: v' :: rest => Some (fold_left (vadd num) (v' :: rest) v)
  | LAveragePooling2D _ _, [v] => Some (vpool num l v)
  | LUpSampling2D _ _, [v] => Some (vupsample num l v)
  | LConcatenate axis, v :: v' :: rest => Some (vconcat num axis vs)
  | _, _ => None
  end.

Definition has_weights (l : layer) : bool :=
  match l with LConv2D _ _ _ _ _ => true | _ => false end.

Definition shape_of_dims (d : list positive) : option shape :=
  match d with
  | [b; h; w; c] => Some (Shape (Some b) h w c)
  | _ => None
  end.

Definition dims_of_shape (s : shape) : option (list positive) :=
  match batch s with
  | Some b => Some [b; height s; width s; chans s]
  | None => None
  end.

Definition feed_ok (s : shape) (d : list positive) : bool :=
  match d with
  | [b; h; w; c] =>
      match batch s with Some b' => (b =? b')%positive | None => true end
      && (h =? height s)%positive && (w =? width s)%positive
      && (c =? chans s)%positive
  | _ => false
  end.

Fixpoint afeed (i : nat) (feed : list (nat * karray V)) : option (karray V) :=
  match feed with
  | [] => None
  | (j, a) :: rest => if (i =? j)%nat then Some a else afeed i rest
  end.

Fixpoint input_values (vals : list (outcome error (karray V))) (ids : list nat)
  : outcome error (list (karray V)) :=
  match ids with
  | [] => Ok []
  | j :: rest =>
      match vals !! j with
      | Some (Ok a) =>
          match input_values vals rest with
          | Ok l => Ok (a :: l)
          | Raise e => Raise e
          end
      | Some (Raise e) => Raise e
      | None => Raise (MustFeed j)
      end
  end.

Definition node_value (init : nat) (training : bool) (feed : list (nat * karray V))
    (vals : list (outcome error (karray V))) (i : nat) (n : node)
  : outcome error (karray V) :=
  match afeed i feed with
  | Some a =>
      if feed_ok (n_shape n) (a_dims a) then Ok a else Raise (FeedShape i (a_dims a))
  | None =>
      match n_op n with
      | OpPlaceholder _ => Raise (MustFeed i)
      | OpLayer l =>
          if is_input_node n then Raise (MustFeed i)
          else
            match input_values vals (n_inputs n) with
            | Raise e => Raise e
            | Ok ins =>
                if has_weights l && (init <=? i)%nat
                then Raise (Uninitialized (n_name n))
                else
                  match mapM shape_of_dims (a_dims <$> ins) with
                  | None => Raise (WrongInputCount l (length ins))
                  | Some ss =>
                      match infer_shape l ss with
                      | Raise e => Raise e
                      | Ok s =>
                          match dims_of_shape s,
                                layer_sem l (n_name n) training (a_val <$> ins) with
                          | Some d, Some v => Ok (NDArray d v)
                          | _, _ => Raise (WrongInputCount l (length ins))
                          end
                      end
                  end
            end
      end
  end.

(** One pass over the graph in creation order. *)
Definition forward (init : nat) (training : bool) (feed : list (nat * karray V))
    (g : list node) : list (outcome error (karray V)) :=
  fold_left (λ vals n, (vals ++ [node_value init training feed vals (length vals) n])%list)
            g [].

Fixpoint fetch (vals : list (outcome error (karray V))) (ts : list ktensor)
  : outcome error (list (karray V)) :=
  match ts with
  | [] => Ok []
  | t :: rest =>
      match vals !! t_id t with
      | Some (Ok a) =>
          match fetch vals rest with
          | Ok l => Ok (a :: l)
          | Raise e => Raise e
          end
      | Some (Raise e) => Raise e
      | None => Raise (MustFeed (t_id t))
      end
  end.

Definition run (fetches : list ktensor) (feed : list (ktensor * karray V))
    (learning_phase : Z) (w : world) : outcome error (list (karray V) * world) :=
  if session w then
    let vals := forward (initialized w) (negb (learning_phase =? 0)%Z)
                        (prod_map t_id id <$> feed) (graph w) in
    match fetch vals fetches with
    | Ok arrs => Ok (arrs, w)
    | Raise e => Raise e
    end
  else Raise NoSession.

(** Python indexing: a negative index counts from the end. *)
Definition py_index (i : Z) (len : Z) : option Z :=
  if (0 <=? i)%Z && (i <? len)%Z then Some i
  else if (- len <=? i)%Z && (i <? 0)%Z then Some (i + len)%Z
  else None.

Definition item (l : list (karray V)) (i : Z) : outcome error (karray V) :=
  match py_index i (Z.of_nat (length l)) with
  | Some j =>
      match l !! Z.to_nat j with
      | Some a => Ok a
      | None => Raise (IndexError i)
      end
  | None => Raise (IndexError i)
  end.

Definition index (a : karray V) (i : Z) : outcome error (karray V) :=
  match a_dims a with
  | d :: rest =>
      match py_index i (Z.pos d) with
      | Some j => Ok (NDArray rest (vindex num (a_val a) j))
      | None => Raise (IndexError i)
      end
  | [] => Raise (IndexError i)
  end.

Definition keras : handler (KH V) world error := λ B c,
  match c in call _ B return world → outcome error (B * world) with
  | Apply l inputs => λ w,
      let '(name, uids') := layer_name l (uids w) in
      apply_layer l name inputs uids' w
  | NewModel i o name => new_model i o name
  | CallModel m x => call_model m x
  | ResetDefaultGraph => λ w,
      if session w then Raise NestedGraph
      else Ok (tt, World ∅ [] false 0 (rng w) (stdout w))
  | SessionEnter => λ w,
      Ok (tt, World (uids w) (graph w) true 0 (rng w) (stdout w))
  | SessionExit => λ w,
      Ok (tt, World (uids w) (graph w) false 0 (rng w) (stdout w))
  | Seed n => λ w,
      Ok (tt, World (uids w) (graph w) (session w) (initialized w) (Some n, 0%nat)
                    (stdout w))
  | Placeholder dtype s => λ w,
      Ok (Tensor (length (graph w)) s,
          add_node (Node (OpPlaceholder dtype) "Placeholder" [] s) (uids w) w)
  | Randn dims => λ w,
      Ok (NDArray dims (vrandn num (rng w).1 (rng w).2 dims),
          World (uids w) (graph w) (session w) (initialized w)
                ((rng w).1, S (rng w).2) (stdout w))
  | RunInit => λ w,
      if session w
      then Ok (tt, World (uids w) (graph w) true (length (graph w)) (rng w) (stdout w))
      else Raise NoSession
  | Run fetches feed lp => run fetches feed lp
  | Item l i => λ w,
      match item l i with Ok a => Ok (a, w) | Raise e => Raise e end
  | Index a i => λ w,
      match index a i with Ok a' => Ok (a', w) | Raise e => Raise e end
  | Str a => λ w, Ok (vstr num (a_val a), w)
  | Print line => λ w,
      Ok (tt, World (uids w) (graph w) (session w) (initialized w) (rng w)
                    (stdout w ++ [line])%list)
  end.
End Forward.


(** ** The declared topology as data

    [cell_detector] is straight-line: which layer is applied to the outputs
    of which earlier calls does not depend on what the framework answers.
    An instruction names its inputs by their position among the tensors
    obtained so far. *)
Inductive instr : Type := IApply (l : layer) (ins : list nat).

Definition layer_of (i : instr) : layer := match i with IApply l _ => l end.
Definition inputs_of (i : instr) : list nat := match i with IApply _ ins => ins end.

Fixpoint compile {H} (c : list instr) (d : tensor H) (env : list (tensor H))
  : prog H (list (tensor H)) :=
  match c with
  | [] => mret env
  | i :: rest =>
      x ← perform (Apply (layer_of i) ((λ j, nth j env d) <$> inputs_of i));
      compile rest d (env ++ [x])%list
  end.

(** A handler that only records the layer calls; a tensor is the position
    of the call that produced it. *)
Definition TH : handles := Handles nat unit unit.

Definition tracer : handler TH (list instr) Empty_set := λ B c,
  match c in call _ B return list instr → outcome Empty_set (B * list instr) with
  | Apply l ins => λ log, Ok (length log, (log ++ [IApply l ins])%list)
  | NewModel _ _ _ => λ log, Ok (tt, log)
  | CallModel _ _ => λ log, Ok (0%nat, log)
  | ResetDefaultGraph | SessionEnter | SessionExit | Seed _ | RunInit | Print _ =>
      λ log, Ok (tt, log)
  | Placeholder _ _ => λ log, Ok (0%nat, log)
  | Randn _ | Item _ _ | Index _ _ => λ log, Ok (tt, log)
  | Run _ _ _ => λ log, Ok ([], log)
  | Str _ => λ log, Ok (EmptyString, log)
  end.

Definition code_of {A} (p : prog TH A) : list instr :=
  match interp tracer p [] with
  | Ok (_, log) => log
  | Raise _ => []
  end.

(** The 89 layer calls of [cell_detector] after [Input]. *)
Definition cd_body : list instr :=
  Eval vm_compute in tail (code_of (cell_detector (1, 1, 1))).

Definition cd_code (input_shape : shape3) : list instr :=
  IApply (LInput input_shape) [] :: cd_body.

(** Shapes along a list of calls. *)
Fixpoint shape_run (c : list instr) (d : shape) (env : list shape)
  : outcome error (list shape) :=
  match c with
  | [] => Ok []
  | i :: rest =>
      match infer_shape (layer_of i) ((λ j, nth j env d) <$> inputs_of i) with
      | Ok s =>
          match shape_run rest d (env ++ [s])%list with
          | Ok new => Ok (s :: new)
          | Raise e => Raise e
          end
      | Raise e => Raise e
      end
  end.

(** Every call reads tensors that exist when it is made. *)
Fixpoint closed (off : nat) (c : list instr) : bool :=
  match c with
  | [] => true
  | i :: rest => forallb (λ j, j <? off)%nat (inputs_of i) && closed (S off) rest
  end.

(** Layer names along a list of calls. *)
Definition uids_after (c : list instr) (u : gmap string nat) : gmap string nat :=
  foldl (λ u i, (layer_name (layer_of i) u).2) u c.

Definition name_at (u : gmap string nat) (c : list instr) (k : nat) : string :=
  match c !! k with
  | Some i => (layer_name (layer_of i) (uids_after (take k c) u)).1
  | None => EmptyString
  end.

Definition dummy_shape : shape := Shape None 1 1 1.

(** The nodes a list of calls adds, inputs counted from the first of them. *)
Definition rel_nodes (c : list instr) (name_of : nat → string)
    (shape_of : nat → shape) : list node :=
  imap (λ k i, Node (OpLayer (layer_of i)) (name_of k) (inputs_of i) (shape_of k)) c.

Definition shift (b : nat) (n : node) : node :=
  Node (n_op n) (n_name n) (Nat.add b <$> n_inputs n) (n_shape n).

Definition shift_entry (b : nat) (jn : nat * node) : nat * node :=
  (b + jn.1, shift b jn.2)%nat.

Definition new_tensors (base : nat) (ss : list shape) : list ktensor :=
  imap (λ k s, Tensor (base + k) s) ss.

Definition input_shape_of (shp : shape3) : shape :=
  Shape None shp.1.1 shp.1.2 shp.2.

Definition with_chans (c : positive) (s : shape) : shape :=
  Shape (batch s) (height s) (width s) c.

(** The nodes of the declared network, numbered from its [Input]. *)
Definition cd_nodes (shp : shape3) (u : gmap string nat) (new : list shape) : list node :=
  rel_nodes (cd_code shp) (name_at u (cd_code shp))
            (λ k, nth k (input_shape_of shp :: new) dummy_shape).

Definition cd_model (shp : shape3) (u : gmap string nat) (b : nat) (new : list shape)
  : kmodel :=
  KModel "CellDetector" (Tensor b (input_shape_of shp))
         (Tensor (b + 89) (nth 88 new (input_shape_of shp)))
         (shift_entry b <$> imap pair (cd_nodes shp u new)).

Definition cd_world (shp : shape3) (w : world) (new : list shape) : world :=
  World (uids_after (cd_code shp) (uids w))
        (graph w ++ (shift (length (graph w)) <$> cd_nodes shp (uids w) new))%list
        (session w) (initialized w) (rng w) (stdout w).

(** Shapes along a list of calls, the tensors so far first. *)
Fixpoint shape_env (c : list instr) (d : shape) (env : list shape)
  : outcome error (list shape) :=
  match c with
  | [] => Ok env
  | i :: rest =>
      match infer_shape (layer_of i) ((λ j, nth j env d) <$> inputs_of i) with
      | Ok s => shape_env rest d (env ++ [s])%list
      | Raise e => Raise e
      end
  end.

(** The shapes of the 90 tensors for a 16x16 input, and for an input
    [h] and [w] times as large. *)
Definition unit_shapes (C : positive) : list shape :=
  Eval vm_compute in
    match shape_env cd_body (Shape None 16 16 C) [Shape None 16 16 C] with
    | Ok env => env
    | Raise _ => []
    end.

Definition cd_shapes (h w C : positive) : list shape :=
  (λ s, Shape (batch s) (height s * h) (width s * w) (chans s)) <$> unit_shapes C.

(** The two ways the construction of the network can fail. *)
Definition is_pool_or_concat_error (e : error) : bool :=
  match e with
  | NegativeDimension (LAveragePooling2D _ _) _ => true
  | IncompatibleShapes (LConcatenate _) _ => true
  | _ => false
  end.

Definition build_verdict (H W : positive) (r : outcome error (list shape)) : Prop :=
  match r with
  | Ok _ => (16 | H) ∧ (16 | W)
  | Raise e => is_pool_or_concat_error e = true
  end.

(** ** The layer table of a model

    The layers of a model in the order of their creation, their inputs
    given as positions in the same list: what [model.summary()] shows,
    without the generated layer names. *)
Record row : Type := Row { r_op : op; r_inputs : list nat; r_shape : shape }.

Definition table (m : kmodel) : list row :=
  (λ jn, Row (n_op jn.2) ((λ i, i - t_id (m_input m))%nat <$> n_inputs jn.2)
             (n_shape jn.2)) <$> m_layers m.

(** What two declarations of a model have to share to be the same model:
    name, layers with their configuration and explicit names, wiring,
    shapes, and which tensors are input and output. *)
Definition structure (m : kmodel)
  : string * list nat * list row * shape * nat * shape :=
  (m_name m,
   (λ i, i - t_id (m_input m))%nat <$> (fst <$> m_layers m),
   table m,
   t_shape (m_input m),
   (t_id (m_output m) - t_id (m_input m))%nat,
   t_shape (m_output m)).

Definition cd_table (shp : shape3) (shapes : list shape) : list row :=
  imap (λ k i, Row (OpLayer (layer_of i)) (inputs_of i) (nth k shapes dummy_shape))
       (cd_code shp).

(** ** Reading a layer table *)

Definition is_pool (r : row) : bool :=
  match r_op r with OpLayer (LAveragePooling2D (2, 2) _) => true | _ => false end.
Definition is_up (r : row) : bool :=
  match r_op r with OpLayer (LUpSampling2D (2, 2) _) => true | _ => false end.
Definition is_concat (r : row) : bool :=
  match r_op r with OpLayer (LConcatenate _) => true | _ => false end.
Definition is_add (r : row) : bool :=
  match r_op r with OpLayer LAdd => true | _ => false end.

Definition input_rows (t : list row) (r : row) : list row :=
  omap (λ i, t !! i) (r_inputs r).

Definition spatial (r : row) : positive * positive :=
  (height (r_shape r), width (r_shape r)).

(** The downsampling path: the rows before the first upsampling. *)
Fixpoint before_up (t : list row) : nat :=
  match t with
  | [] => 0
  | r :: t' => if is_up r then 0 else S (before_up t')
  end.

Definition pool_halves (t : list row) : Prop :=
  Forall (λ r, is_pool r = true →
               ∃ x, input_rows t r = [x] ∧
                    height (r_shape x) = 2 * height (r_shape r) ∧
                    width (r_shape x) = 2 * width (r_shape r)) t.

Definition up_doubles (t : list row) : Prop :=
  Forall (λ r, is_up r = true →
               ∃ x, input_rows t r = [x] ∧
                    height (r_shape r) = 2 * height (r_shape x) ∧
                    width (r_shape r) = 2 * width (r_shape x)) t.

(** A concatenation joins a row of the downsampling path with the
    upsampling just before it, both of the same spatial size. *)
Definition concat_joins (t : list row) : Prop :=
  Forall (λ r, is_concat r = true →
               ∃ i j e u, r_inputs r = [i; j] ∧ t !! i = Some e ∧ t !! j = Some u ∧
                          (i < before_up t)%nat ∧ is_up u = true ∧
                          spatial e = spatial u ∧ spatial r = spatial u) t.

(** ** The residual block as the graph sees it *)

Definition block_layers (F1 F2 ch : positive) (stage : Z) : list layer :=
  let conv_base_name := "res_" +:+ pretty stage +:+ "_branch_" in
  [LELU;
   LConv2D F1 (3, 3) (1, 1) same (Some (conv_base_name +:+ "2_a"));
   LDropout dropout_rate;
   LELU;
   LConv2D F2 (3, 3) (1, 1) same (Some (conv_base_name +:+ "2_b"));
   LLambdaScale scaling_factor;
   LAdd;
   LConv2D ch (1, 1) (1, 1) valid None].

Definition block_names (F1 F2 ch : positive) (stage : Z) (u : gmap string nat)
  : nat → string :=
  name_at u ((λ l, IApply l []) <$> block_layers F1 F2 ch stage).

Definition block_nodes (X : ktensor) (F1 F2 ch : positive) (stage : Z) (c : positive)
    (u : gmap string nat) (b : nat) : list node :=
  let sx := t_shape X in
  let nm := block_names F1 F2 ch stage u in
  let l k := nth k (block_layers F1 F2 ch stage) LELU in
  [Node (OpLayer (l 0%nat)) (nm 0%nat) [t_id X] sx;
   Node (OpLayer (l 1%nat)) (nm 1%nat) [b] (with_chans F1 sx);
   Node (OpLayer (l 2%nat)) (nm 2%nat) [b + 1]%nat (with_chans F1 sx);
   Node (OpLayer (l 3%nat)) (nm 3%nat) [b + 2]%nat (with_chans F1 sx);
   Node (OpLayer (l 4%nat)) (nm 4%nat) [b + 3]%nat (with_chans F2 sx);
   Node (OpLayer (l 5%nat)) (nm 5%nat) [b + 4]%nat (with_chans F2 sx);
   Node (OpLayer (l 6%nat)) (nm 6%nat) [b + 5; t_id X]%nat (with_chans c sx);
   Node (OpLayer (l 7%nat)) (nm 7%nat) [b + 6]%nat (with_chans ch sx)].

Definition block_world (X : ktensor) (F1 F2 ch : positive) (stage : Z) (c : positive)
    (w : world) : world :=
  World (uids_after ((λ l, IApply l []) <$> block_layers F1 F2 ch stage) (uids w))
        (graph w ++ block_nodes X F1 F2 ch stage c (uids w) (length (graph w)))%list
        (session w) (initialized w) (rng w) (stdout w).

(** ** The call sites of [residual_block] in [cell_detector] *)

(** A call [residual_block(X, [F1, F2], channels, stage)], placed in a layer
    table: [cs_input] is the row of [X] and [cs_start] the row of the first
    layer the call creates. *)
Record call_site : Type := CallSite {
  cs_input : nat;
  cs_start : nat;
  cs_filters : positive * positive;
  cs_channels : positive;
  cs_stage : Z
}.

(** The layer calls [residual_block] makes at a call site. *)
Definition block_code (cs : call_site) : list instr :=
  match interp tracer
          (residual_block (H:=TH) (cs_input cs) (cs_filters cs) (cs_channels cs)
                          (cs_stage cs))
          (replicate (cs_start cs) (IApply LELU [])) with
  | Ok (_, log) => drop (cs_start cs) log
  | Raise _ => []
  end.

Definition wiring (t : list row) : list (op * list nat) :=
  (λ r, (r_op r, r_inputs r)) <$> t.

Definition block_at (t : list row) (cs : call_site) : Prop :=
  wiring (take 8 (drop (cs_start cs) t))
  = (λ i, (OpLayer (layer_of i), inputs_of i)) <$> block_code cs.

(** The row holding the tensor a call returns. *)
Definition cs_output (cs : call_site) : nat := (cs_start cs + 7)%nat.

(** The precondition of the addition at a call site: the block's input has
    as many channels as the second convolution has filters. *)
Definition site_channels_match (t : list row) (cs : call_site) : Prop :=
  ∃ x, t !! cs_input cs = Some x ∧ chans (r_shape x) = (cs_filters cs).2.

(** The nine calls in [cell_detector], in the order they are made. *)
Definition cd_calls : list call_site :=
  [CallSite 1 2 (32, 32) 32 1;
   CallSite 11 12 (64, 64) 64 2;
   CallSite 21 22 (128, 128) 128 3;
   CallSite 31 32 (256, 256) 256 4;
   CallSite 40 41 (256, 256) 256 5;
   CallSite 50 51 (512, 512) 256 6;
   CallSite 60 61 (384, 384) 128 7;
   CallSite 70 71 (192, 192) 64 8;
   CallSite 80 81 (96, 96) 32 9].

(** Every addition of a table adds two tensors of one shape. *)
Definition adds_agree (t : list row) : Prop :=
  Forall (λ r, is_add r = true →
               ∃ a x, input_rows t r = [a; x] ∧ r_shape a = r_shape x ∧
                      r_shape r = r_shape x) t.

Definition is_add_error (e : error) : bool :=
  match e with
  | IncompatibleShapes LAdd _ => true
  | _ => false
  end.

(** ** A backend on 1x1 single-channel images

    A tensor of shape [1, 1, 1, 1] is one number.  On such tensors a
    convolution is a multiplication by the weight at the centre of its
    kernel plus a bias; here every convolution has the weight 2 and the
    bias 0.  The exponential of ELU is replaced by a rational function with
    the same value and slope at 0; dropout in training keeps its input. *)
Definition scalar : numerics Q := {|
  velu := λ x, if Qle_bool 0 x then x else Qred (x / (1 - x));
  vconv := λ _ _ x, Qred (2 * x);
  vdropout := λ rate x, Qred (x / (1 - this rate));
  vscale := λ factor x, Qred (this factor * x);
  vadd := λ x y, Qred (x + y);
  vpool := λ _ x, x;
  vupsample := λ _ x, x;
  vconcat := λ _ xs, foldr (λ x y, Qred (x + y)) 0%Q xs;
  vrandn := λ _ _ _, 1%Q;
  vindex := λ x _, x;
  vstr := λ _, "1."
|}.

(** ** Sizes along the two paths *)

Definition is_input (r : row) : bool :=
  match r_op r with OpLayer (LInput _) => true | _ => false end.
Definition is_elu (r : row) : bool :=
  match r_op r with OpLayer LELU => true | _ => false end.

(** The spatial size of the input and after each pooling. *)
Definition downsampling_sizes (t : list row) : list (positive * positive) :=
  spatial <$> List.filter (λ r, is_input r || is_pool r) t.

Definition concat_sizes (t : list row) : list (positive * positive) :=
  spatial <$> List.filter is_concat t.

(** The inputs of the concatenations, and the upsamplings with their
    position and inputs, in the order of their creation. *)
Definition skips (t : list row) : list (list nat) :=
  r_inputs <$> List.filter is_concat t.

Definition ups (t : list row) : list (nat * list nat) :=
  (λ kr : nat * row, (kr.1, r_inputs kr.2)) <$>
  List.filter (λ kr : nat * row, is_up kr.2) (imap pair t).

(** The explicit names given to convolutions. *)
Definition conv_names (t : list row) : list string :=
  omap (λ r, match r_op r with
             | OpLayer (LConv2D _ _ _ _ name) => name
             | _ => None
             end) t.

(** ** Which calls a program makes *)

(** Every call the program makes, whatever the framework answers,
    satisfies [P]. *)
Inductive calls_only {H} (P : ∀ B, call H B → Prop) {A} : prog H A → Prop :=
| calls_only_ret (a : A) : calls_only P (Ret a)
| calls_only_do {B} (c : call H B) (k : B → prog H A) :
    P B c → (∀ b, calls_only P (k b)) → calls_only P (Do c k).

(** Layer application and model construction: the calls that declare a
    graph. *)
Definition is_declaration {H} (B : Type) (c : call H B) : Prop :=
  match c with
  | Apply _ _ | NewModel _ _ _ => True
  | _ => False
  end.

(** What a run of the module shows: the lines it prints and the forward
    passes it asks for, with their results. *)
Inductive event (H : handles) : Type :=
| Printed (line : string)
| Fetched (fetches : list (tensor H)) (feed : list (tensor H * ndarray H))
          (learning_phase : Z) (result : list (ndarray H)).

Arguments Printed {H} line.
Arguments Fetched {H} fetches feed learning_phase result.

Definition event_of {H B} (c : call H B) : B → option (event H) :=
  match c in call _ B return B → option (event H) with
  | Print line => λ _, Some (Printed line)
  | Run fetches feed lp => λ result, Some (Fetched fetches feed lp result)
  | _ => λ _, None
  end.

(** A framework together with a record of the events. *)
Definition observed {H S E} (h : handler H S E) : handler H (S * list (event H)) E :=
  λ B c sl,
    match h B c sl.1 with
    | Ok (b, s') =>
        Ok (b, (s', (sl.2 ++ option_list (event_of c b))%list))
    | Raise e => Raise e
    end.

Definition silent {H} (B : Type) (c : call H B) : Prop := ∀ b, event_of c b = None.

(** The events of one of the two tests, [run] being its forward pass and
    [s] the element printed. *)
Definition test_events {H} (title : string) (run : event H) (s : string)
  : list (event H) :=
  [Printed (nl +:+ title); run; Printed ("out = " +:+ s);
   Printed ("Test complete: PASSED" +:+ nl)].

Definition is_fetch {H} (ev : event H) : bool :=
  match ev with Fetched _ _ _ _ => true | Printed _ => false end.

(** ** What the residual block computes

    The residual branch F of the docstring, ELU - Conv - Dropout - ELU -
    Conv, the two convolutions being the layers [la] and [lb] with the
    weights of their names; dropout acts in training only. *)
Definition residual_branch {V} (num : numerics V) (la : layer) (na : string)
    (lb : layer) (nb : string) (training : bool) (x : V) : V :=
  let a := velu num x in
  let a := vconv num la na a in
  let a := if training then vdropout num dropout_rate a else a in
  let a := velu num a in
  vconv num lb nb a.

(** F scaled by 0.3 and added to the shortcut, in the order of
    [Add()([X, X_shortcut])]. *)
Definition scaled_sum {V} (num : numerics V) (la : layer) (na : string)
    (lb : layer) (nb : string) (training : bool) (x : V) : V :=
  vadd num (vscale num scaling_factor (residual_branch num la na lb nb training x)) x.

(** A block on one pixel with one channel, and a run of it on the input 1,
    after the pattern of the smoke test. *)
Definition one_pixel : ktensor := Tensor 0 (Shape (Some 1) 1 1 1).

Definition one_pixel_world : world :=
  World ∅ [Node (OpPlaceholder "float") "Placeholder" [] (Shape (Some 1) 1 1 1)]
        true 0 (None, 0%nat) [].

Definition one_pixel_run : prog (KH Q) (list (karray Q)) :=
  perform (SessionEnter (H:=KH Q));;
  X ← perform (Placeholder (H:=KH Q) "float" (Shape (Some 1) 1 1 1));
  A ← residual_block (H:=KH Q) X (1, 1) 1 1;
  perform (RunInit (H:=KH Q));;
  perform (Run (H:=KH Q) [A] [(X, NDArray [1; 1; 1; 1] 1%Q)] 0).

(** ** Who reads a row *)

(** The rows that take row [i] as an input. *)
Definition consumers (t : list row) (i : nat) : list nat :=
  fst <$> List.filter (λ kr : nat * row, mem i (r_inputs kr.2)) (imap pair t).

(** The poolings of a table, with their position and their inputs. *)
Definition pools (t : list row) : list (nat * list nat) :=
  (λ kr : nat * row, (kr.1, r_inputs kr.2)) <$>
  List.filter (λ kr : nat * row, is_pool kr.2) (imap pair t).

(** The five resolutions of the network for an input of 16h x 16w. *)
Definition resolutions (h w : positive) : list (positive * positive) :=
  [(16 * h, 16 * w); (8 * h, 8 * w); (4 * h, 4 * w); (2 * h, 2 * w); (h, w)].

(** Two residual blocks, the second on the output of the first. *)
Definition two_blocks {H} (X : tensor H) (filters1 : positive * positive)
    (channels1 : positive) (stage1 : Z) (filters2 : positive * positive)
    (channels2 : positive) (stage2 : Z) : prog H (tensor H) :=
  A ← residual_block X filters1 channels1 stage1;
  residual_block A filters2 channels2 stage2.

(** The random array both tests feed: the first draw after [seed(123)]. *)
Definition seeded_input {V} (num : numerics V) : karray V :=
  NDArray [5; 128; 128; 3] (vrandn num (Some 123%N) 0 [5; 128; 128; 3]).

Section SmokeRun.
Context {V : Type} (num : numerics V).

(** What the smoke test gives on Keras from a state in which no session
    is entered, computed. *)
Definition main_outcome (u : gmap string nat) (g : list node) (ini : nat)
    (r : option N * nat) (so : list string)
  : outcome error (unit * (world * list (event (KH V)))) :=
  Eval vm_compute in
    interp (observed (keras num)) main (World u g false ini r so, []).
End SmokeRun.

Definition world_after_main {V} (num : numerics V) (w : world) : world :=
  match main_outcome num (uids w) (graph w) (initialized w) (rng w) (stdout w) with
  | Ok (_, (w', _)) => w'
  | Raise _ => w
  end.

(** ** Inference only *)

(** The backend [num] with another training-time dropout. *)
Definition with_dropout {V} (d : Qc → V → V) (num : numerics V) : numerics V :=
  {| velu := velu num; vconv := vconv num; vdropout := d; vscale := vscale num;
     vadd := vadd num; vpool := vpool num; vupsample := vupsample num;
     vconcat := vconcat num; vrandn := vrandn num; vindex := vindex num;
     vstr := vstr num |}.

(** Every forward pass is asked for with [K.learning_phase(): 0]. *)
Definition inference_only {H} (B : Type) (c : call H B) : Prop :=
  match c with
  | Run _ _ lp => lp = 0%Z
  | _ => True
  end.

(** ** Which layer refuses which input *)

(** What the outcome of the shape computation says about H and W. *)
Definition failure_kind (H W : positive) (r : outcome error (list shape)) : Prop :=
  match r with
  | Ok _ => (16 | H) ∧ (16 | W)
  | Raise (NegativeDimension l _) =>
      l = LAveragePooling2D (2, 2) valid ∧ (H < 16 ∨ W < 16)
  | Raise (IncompatibleShapes l _) =>
      l = LConcatenate (-1) ∧ 16 ≤ H ∧ 16 ≤ W ∧ ¬ ((16 | H) ∧ (16 | W))
  | Raise _ => False
  end.

(** ** Layer names

    A layer is named by its [name] argument or, without one, by the prefix
    of its class and the number of such layers so far. *)
Definition name_key : Type := string + string * nat.

Fixpoint count_auto (p : string) (c : list instr) : nat :=
  match c with
  | [] => 0
  | i :: rest =>
      match explicit_name (layer_of i) with
      | Some _ => count_auto p rest
      | None =>
          if String.eqb (layer_prefix (layer_of i)) p then S (count_auto p rest)
          else count_auto p rest
      end
  end.

Definition key_of (before : list instr) (i : instr) : name_key :=
  match explicit_name (layer_of i) with
  | Some name => inl name
  | None => inr (layer_prefix (layer_of i),
                 count_auto (layer_prefix (layer_of i)) before)
  end.

Definition keys (c : list instr) : list name_key :=
  imap (λ k i, key_of (take k c) i) c.

Definition name_of (u : gmap string nat) (k : name_key) : string :=
  match k with
  | inl name => name
  | inr (p, n) => p +:+ "_" +:+ pretty (S (default 0%nat (u !! p) + n))
  end.

(** Two strings differ at a position both have. *)
Fixpoint diverge (a b : string) : bool :=
  match a, b with
  | String x a', String y b' => if Ascii.eqb x y then diverge a' b' else true
  | _, _ => false
  end.

Definition separated (k1 k2 : name_key) : bool :=
  match k1, k2 with
  | inl a, inl b => negb (String.eqb a b)
  | inl a, inr (p, _) | inr (p, _), inl a => diverge a p
  | inr (p, n), inr (q, m) =>
      if String.eqb p q then negb (n =? m)%nat else diverge p q
  end.

Fixpoint all_separated (ks : list name_key) : bool :=
  match ks with
  | [] => true
  | k :: rest => forallb (separated k) rest && all_separated rest
  end.

(** The names of the layers of a model, in the order of their creation. *)
Definition layer_names (m : kmodel) : list string :=
  (λ jn : nat * node, n_name jn.2) <$> m_layers m.

(** Some call of the list reads tensor [j]. *)
Definition reads (j : nat) (c : list instr) : bool :=
  existsb (λ i, mem j (inputs_of i)) c.

(** ** Calling a model

    The layers of a model as [replay] meets them: [off] entries come
    before those of [c], whose names and declared shapes are [nm] and
    [sh]. *)
Definition entries (b0 off : nat) (nm : nat → string) (sh : nat → shape)
    (c : list instr) : list (nat * node) :=
  imap (λ k i, ((b0 + (off + k))%nat,
                Node (OpLayer (layer_of i)) (nm k) (Nat.add b0 <$> inputs_of i) (sh k)))
       c.

(** The tensors a replay has, by the number of the layer they stand for. *)
Definition tmap_of (b0 : nat) (env : list ktensor) : list (nat * ktensor) :=
  reverse (imap (λ j t, ((b0 + j)%nat, t)) env).

Definition no_input (c : list instr) : bool :=
  forallb (λ i, match layer_of i with LInput _ => false | _ => true end) c.

Definition with_batch (bt : option positive) (s : shape) : shape :=
  Shape bt (height s) (width s) (chans s).

(** ** Shapes with unknown sizes

    Keras' [Input] also takes [None] for a size.  A static shape may then
    have unknown height, width or channels; the layers pass an unknown size
    on, and refuse what they refuse of known sizes.  A convolution needs
    the number of channels of its input. *)
Record dshape : Type := DShape {
  dbatch : option positive;
  dheight : option positive;
  dwidth : option positive;
  dchans : option positive
}.

Definition known (s : shape) : dshape :=
  DShape (batch s) (Some (height s)) (Some (width s)) (Some (chans s)).

Inductive derror : Type :=
| DNegativeDimension (l : layer) (s : dshape)
| DIncompatibleShapes (l : layer) (ss : list dshape)
| DWrongInputCount (l : layer) (n : nat)
| DBadAxis (axis : Z)
| DUndefinedChannels (l : layer)
| DOther (e : error).

(** The exception of the known sizes, among those of all sizes. *)
Definition lift_error (e : error) : derror :=
  match e with
  | NegativeDimension l s => DNegativeDimension l (known s)
  | IncompatibleShapes l ss => DIncompatibleShapes l (known <$> ss)
  | WrongInputCount l n => DWrongInputCount l n
  | BadAxis axis => DBadAxis axis
  | _ => DOther e
  end.

(** [conv_utils.conv_output_length] of a possibly unknown length: [None]
    when the window does not fit, [Some None] when the length is unknown. *)
Definition dout_len (pad : padding) (n : option positive) (k s : positive)
  : option (option positive) :=
  match n with
  | None => Some None
  | Some n => Some <$> out_len pad n k s
  end.

Definition dwindowed (l : layer) (pad : padding) (k st : positive * positive)
    (c : option positive) (s : dshape) : outcome derror dshape :=
  match dout_len pad (dheight s) k.1 st.1, dout_len pad (dwidth s) k.2 st.2 with
  | Some h, Some w => Ok (DShape (dbatch s) h w c)
  | _, _ => Raise (DNegativeDimension l s)
  end.

(** [_Merge._compute_elemwise_op_output_shape]: unknown when one of the
    two sizes is. *)
Definition dbroadcast_dim (i j : option positive) : option (option positive) :=
  match i, j with
  | Some a, Some b => Some <$> broadcast_dim a b
  | _, _ => Some None
  end.

Definition dmerge_shape (acc : option dshape) (s : dshape) : option dshape :=
  match acc with
  | None => None
  | Some a =>
      match merge_batch (dbatch a) (dbatch s), dbroadcast_dim (dheight a) (dheight s),
            dbroadcast_dim (dwidth a) (dwidth s), dbroadcast_dim (dchans a) (dchans s) with
      | Some b, Some h, Some w, Some c => Some (DShape b h w c)
      | _, _, _, _ => None
      end
  end.

(** [Concatenate.build] compares the shapes without the concatenation axis
    as tuples: an unknown size equals an unknown size only. *)
Definition dreduced (ax : Z) (s : dshape) : list (option positive) :=
  if (ax =? 0)%Z then [dheight s; dwidth s; dchans s]
  else if (ax =? 1)%Z then [dbatch s; dwidth s; dchans s]
  else if (ax =? 2)%Z then [dbatch s; dheight s; dchans s]
  else [dbatch s; dheight s; dwidth s].

Definition dconcat_shape (ax : Z) (a s : dshape) : dshape :=
  if (ax =? 0)%Z then DShape (oadd (dbatch a) (dbatch s)) (dheight a) (dwidth a) (dchans a)
  else if (ax =? 1)%Z
  then DShape (dbatch a) (oadd (dheight a) (dheight s)) (dwidth a) (dchans a)
  else if (ax =? 2)%Z
  then DShape (dbatch a) (dheight a) (oadd (dwidth a) (dwidth s)) (dchans a)
  else DShape (dbatch a) (dheight a) (dwidth a) (oadd (dchans a) (dchans s)).

Definition infer_dshape (l : layer) (ins : list dshape) : outcome derror dshape :=
  match l, ins with
  | LInput (h, w, c), [] => Ok (DShape None (Some h) (Some w) (Some c))
  | LELU, [s] | LDropout _, [s] | LLambdaScale _, [s] => Ok s
  | LConv2D filters k st pad _, [s] =>
      match dchans s with
      | Some _ => dwindowed l pad k st (Some filters) s
      | None => Raise (DUndefinedChannels l)
      end
  | LAveragePooling2D k pad, [s] => dwindowed l pad k k (dchans s) s
  | LUpSampling2D (sh, sw) _, [s] =>
      Ok (DShape (dbatch s) ((λ h, h * sh) <$> dheight s) ((λ w, w * sw) <$> dwidth s)
                 (dchans s))
  | LAdd, s :: s' :: rest =>
      match fold_left dmerge_shape (s' :: rest) (Some s) with
      | Some r => Ok r
      | None => Raise (DIncompatibleShapes l ins)
      end
  | LConcatenate axis, s :: s' :: rest =>
      match normal_axis axis with
      | None => Raise (DBadAxis axis)
      | Some ax =>
          if forallb (λ t, reduced_eqb (dreduced ax s) (dreduced ax t)) (s' :: rest)
          then Ok (fold_left (dconcat_shape ax) (s' :: rest) s)
          else Raise (DIncompatibleShapes l ins)
      end
  | _, _ => Raise (DWrongInputCount l (length ins))
  end.

(** Shapes along a list of calls, unknown sizes allowed. *)
Fixpoint dshape_run (c : list instr) (d : dshape) (env : list dshape)
  : outcome derror (list dshape) :=
  match c with
  | [] => Ok []
  | i :: rest =>
      match infer_dshape (layer_of i) ((λ j, nth j env d) <$> inputs_of i) with
      | Ok s =>
          match dshape_run rest d (env ++ [s])%list with
          | Ok new => Ok (s :: new)
          | Raise e => Raise e
          end
      | Raise e => Raise e
      end
  end.

Fixpoint dshape_env (c : list instr) (d : dshape) (env : list dshape)
  : outcome derror (list dshape) :=
  match c with
  | [] => Ok env
  | i :: rest =>
      match infer_dshape (layer_of i) ((λ j, nth j env d) <$> inputs_of i) with
      | Ok s => dshape_env rest d (env ++ [s])%list
      | Raise e => Raise e
      end
  end.

(** The tensor [Input] gives for a shape with sizes that may be unknown. *)
Definition input_dshape (H W C : option positive) : dshape := DShape None H W C.

(** A size that is unknown, or known and a multiple of 16. *)
Definition ok16 (n : option positive) : Prop := ∀ k, n = Some k → (16 | k).

(** What the outcome of the shape computation says about H and W. *)
Definition dverdict (H W : option positive) (r : outcome derror (list dshape)) : Prop :=
  match r with
  | Ok env =>
      ok16 H ∧ ok16 W ∧ list.last env = Some (DShape None H W (Some 1))
  | Raise (DNegativeDimension (LAveragePooling2D _ _) _)
  | Raise (DIncompatibleShapes (LConcatenate _) _) => ¬ (ok16 H ∧ ok16 W)
  | Raise _ => False
  end.

(** * Properties *)

(** ** Running programs *)

Lemma interp_bind {H S E A B} (h : handler H S E) (p : prog H A)
    (f : A → prog H B) (s : S) :
  interp h (p ≫= f) s =
  match interp h p s with
  | Ok (a, s') => interp h (f a) s'
  | Raise e => Raise e
  end.
Proof.
  revert s. induction p as [a | C c k IH]; intros s; simpl; [done |].
  destruct (h C c s) as [[b s'] | e]; [apply IH | done].
Qed.

Lemma interp_perform {H S E B} (h : handler H S E) (c : call H B) (s : S) :
  interp h (perform c) s = h B c s.
Proof. simpl. by destruct (h B c s) as [[b s'] | e]. Qed.

Lemma interp_ret {H S E A} (h : handler H S E) (a : A) (s : S) :
  interp h (mret a) s = Ok (a, s).
Proof. done. Qed.

Section Keras.
Context {V : Type} (num : numerics V).

Lemma keras_apply (l : layer) (ins : list ktensor) (w : world) :
  keras num _ (Apply (H:=KH V) l ins) w =
  match infer_shape l (t_shape <$> ins) with
  | Ok s =>
      Ok (Tensor (length (graph w)) s,
          add_node (Node (OpLayer l) (layer_name l (uids w)).1 (t_id <$> ins) s)
                   (layer_name l (uids w)).2 w)
  | Raise e => Raise e
  end.
Proof.
  simpl. destruct (layer_name l (uids w)) as [name u]. done.
Qed.

(** One layer call followed by the rest of the program. *)
Lemma step_ok (l : layer) (ins : list ktensor) (s : shape) {A}
    (k : ktensor → prog (KH V) A) (w : world) :
  infer_shape l (t_shape <$> ins) = Ok s →
  interp (keras num) (perform (Apply (H:=KH V) l ins) ≫= k) w =
  interp (keras num) (k (Tensor (length (graph w)) s))
    (add_node (Node (OpLayer l) (layer_name l (uids w)).1 (t_id <$> ins) s)
              (layer_name l (uids w)).2 w).
Proof.
  intros Hs. by rewrite interp_bind, interp_perform, keras_apply, Hs.
Qed.

Lemma step_raise (l : layer) (ins : list ktensor) (e : error) {A}
    (k : ktensor → prog (KH V) A) (w : world) :
  infer_shape l (t_shape <$> ins) = Raise e →
  interp (keras num) (perform (Apply (H:=KH V) l ins) ≫= k) w = Raise e.
Proof.
  intros Hs. by rewrite interp_bind, interp_perform, keras_apply, Hs.
Qed.
End Keras.

(** ** The program is its topology *)

Lemma cell_detector_reified {H} (shp : shape3) :
  cell_detector (H:=H) shp =
  (x0 ← Input shp;
   env ← compile cd_body x0 [x0];
   m ← Model x0 (nth 89 env x0) "CellDetector";
   mret m).
Proof. vm_compute. reflexivity. Qed.

Lemma shape_run_length (c : list instr) (d : shape) :
  ∀ env new, shape_run c d env = Ok new → length new = length c.
Proof.
  induction c as [|i c IH]; intros env new; simpl.
  - by intros [= <-].
  - destruct (infer_shape _ _) as [s|e]; [|done].
    destruct (shape_run c d _) as [new'|e] eqn:Hrec; [|done].
    intros [= <-]. simpl. f_equal. eauto.
Qed.

Lemma new_tensors_snoc (base : nat) (ss : list shape) (s : shape) :
  new_tensors base (ss ++ [s]) = (new_tensors base ss ++ [Tensor (base + length ss) s])%list.
Proof.
  unfold new_tensors. rewrite imap_app. simpl. by rewrite Nat.add_0_r.
Qed.

Lemma new_tensors_length (base : nat) (ss : list shape) :
  length (new_tensors base ss) = length ss.
Proof. unfold new_tensors. by rewrite length_imap. Qed.

Lemma nth_new_tensors_shape (base : nat) (ss : list shape) (d : ktensor) (j : nat) :
  t_shape (nth j (new_tensors base ss) d) = nth j ss (t_shape d).
Proof.
  rewrite !nth_lookup. unfold new_tensors. rewrite list_lookup_imap.
  by destruct (ss !! j).
Qed.

Lemma nth_new_tensors_id (base : nat) (ss : list shape) (d : ktensor) (j : nat) :
  (j < length ss)%nat → t_id (nth j (new_tensors base ss) d) = (base + j)%nat.
Proof.
  intros Hj. rewrite nth_lookup. unfold new_tensors. rewrite list_lookup_imap.
  destruct (lookup_lt_is_Some_2 ss j Hj) as [s ->]. done.
Qed.

Lemma name_at_cons (u : gmap string nat) (i : instr) (c : list instr) (k : nat) :
  name_at u (i :: c) (S k) = name_at (layer_name (layer_of i) u).2 c k.
Proof. unfold name_at. simpl. done. Qed.

Section Topology.
Context {V : Type} (num : numerics V).

Lemma run_compile (c : list instr) :
  ∀ (ss : list shape) (w : world) (base : nat) (d : ktensor),
    closed (length ss) c = true →
    length (graph w) = (base + length ss)%nat →
    interp (keras num) (compile (H:=KH V) c d (new_tensors base ss)) w =
    match shape_run c (t_shape d) ss with
    | Raise e => Raise e
    | Ok new =>
        Ok (new_tensors base (ss ++ new),
            World (uids_after c (uids w))
              (graph w ++
               (shift base <$>
                rel_nodes c (name_at (uids w) c) (λ k, nth k new dummy_shape)))%list
              (session w) (initialized w) (rng w) (stdout w))
    end.
Proof.
  induction c as [|i c IH]; intros ss w base d Hcl Hlen.
  - simpl. rewrite !app_nil_r. by destruct w.
  - simpl in Hcl. apply andb_prop in Hcl as [Hins Hcl].
    cbn [compile shape_run].
    rewrite interp_bind, interp_perform, keras_apply.
    change (tensor (KH V)) with ktensor.
    assert (t_shape <$> ((λ j, nth j (new_tensors base ss) d) <$> inputs_of i)
            = (λ j, nth j ss (t_shape d)) <$> inputs_of i) as ->.
    { rewrite <-list_fmap_compose. apply list_fmap_ext.
      intros k j _. apply nth_new_tensors_shape. }
    destruct (infer_shape _ _) as [s|e]; [|done].
    assert (t_id <$> ((λ j, nth j (new_tensors base ss) d) <$> inputs_of i)
            = Nat.add base <$> inputs_of i) as ->.
    { rewrite <-list_fmap_compose. apply Forall_fmap_ext, Forall_forall.
      intros j Hj.
      rewrite forallb_forall in Hins. apply Hins, Nat.ltb_lt in Hj.
      by apply nth_new_tensors_id. }
    rewrite Hlen, <-new_tensors_snoc.
    rewrite IH; cycle 1.
    { by rewrite length_app, Nat.add_comm. }
    { simpl. rewrite !length_app. simpl. lia. }
    destruct (shape_run c (t_shape d) (ss ++ [s])) as [new|e]; [|done].
    simpl. rewrite <-!app_assoc. simpl. by do 3 f_equal.
Qed.
End Topology.

(** ** Collecting the layers of a model *)

Lemma mem_shift (b i : nat) (l : list nat) :
  mem (b + i) (Nat.add b <$> l) = mem i l.
Proof.
  unfold mem. induction l as [|j l IH]; [done|].
  rewrite fmap_cons. cbn [existsb]. rewrite IH. f_equal.
  destruct (Nat.eqb_spec i j) as [->|Hne]; [apply Nat.eqb_refl|].
  apply Nat.eqb_neq. lia.
Qed.

Lemma gather_below (b : nat) (rest : list (nat * node)) :
  ∀ needed, Forall (λ jn, jn.1 < b)%nat rest → Forall (λ j, b ≤ j)%nat needed →
            gather rest needed = [].
Proof.
  induction rest as [|[i n] rest IH]; intros needed Hrest Hneeded; simpl; [done|].
  inversion_clear Hrest as [|? ? Hi Hrest']. simpl in Hi.
  assert (mem i needed = false) as ->; [|by apply IH].
  unfold mem. apply not_true_is_false. intros Hex.
  apply existsb_exists in Hex as (j & Hj & Heq).
  apply Nat.eqb_eq in Heq as <-.
  rewrite Forall_forall in Hneeded. apply Hneeded in Hj. lia.
Qed.

Lemma gather_shift (b : nat) (l rest : list (nat * node)) :
  Forall (λ jn, jn.1 < b)%nat rest →
  ∀ needed,
    gather ((shift_entry b <$> l) ++ rest) (Nat.add b <$> needed)
    = shift_entry b <$> gather l needed.
Proof.
  intros Hrest. induction l as [|[i n] l IH]; intros needed; simpl.
  - apply gather_below with b; [done|].
    apply Forall_fmap, Forall_forall. intros j _. simpl. lia.
  - rewrite mem_shift. destruct (mem i needed); [|apply IH].
    rewrite <-fmap_app, IH, fmap_app. done.
Qed.

Lemma indexed_shift (pre rel : list node) :
  reverse (imap pair (pre ++ (shift (length pre) <$> rel)))
  = ((shift_entry (length pre) <$> reverse (imap pair rel)) ++ reverse (imap pair pre))%list.
Proof.
  rewrite imap_app, reverse_app. f_equal.
  rewrite fmap_reverse. f_equal.
  rewrite imap_fmap, fmap_imap. by apply imap_ext.
Qed.

Lemma indexed_below (pre : list node) :
  Forall (λ jn : nat * node, jn.1 < length pre)%nat (reverse (imap pair pre)).
Proof.
  apply Forall_reverse, Forall_lookup. intros k [j n] Hk.
  rewrite list_lookup_imap in Hk.
  destruct (pre !! k) as [x|] eqn:Hx; simplify_eq/=.
  by eapply lookup_lt_Some.
Qed.

Lemma connected_shift (b ki : nat) (layers : list (nat * node)) :
  connected (b + ki) (shift_entry b <$> layers) = connected ki layers.
Proof.
  unfold connected. induction layers as [|[j n] layers IH]; [done|].
  rewrite fmap_cons. cbn [forallb]. rewrite IH. f_equal. cbn [shift_entry fst snd]. f_equal.
  - unfold is_source. simpl. by destruct (n_inputs n).
  - destruct (Nat.eqb_spec j ki) as [->|Hne]; [apply Nat.eqb_refl|].
    apply Nat.eqb_neq. lia.
Qed.

Lemma new_model_shift (pre rel : list node) (u : gmap string nat) (se : bool)
    (ini : nat) (r : option N * nat) (so : list string) (ki ko : nat)
    (si so' : shape) (name : string) (n : node) :
  rel !! ki = Some n → is_input_node n = true →
  new_model (Tensor (length pre + ki) si) (Tensor (length pre + ko) so') name
            (World u (pre ++ (shift (length pre) <$> rel)) se ini r so)
  = if connected ki (gather (reverse (imap pair rel)) [ko])
    then Ok (KModel name (Tensor (length pre + ki) si) (Tensor (length pre + ko) so')
                    (shift_entry (length pre) <$> gather (reverse (imap pair rel)) [ko]),
             World u (pre ++ (shift (length pre) <$> rel)) se ini r so)
    else Raise GraphDisconnected.
Proof.
  intros Hn Hin. unfold new_model. simpl.
  rewrite lookup_app_r by lia.
  replace (length pre + ki - length pre)%nat with ki by lia.
  rewrite list_lookup_fmap, Hn. simpl.
  replace (is_input_node (shift (length pre) n)) with true by done.
  rewrite indexed_shift.
  change [(length pre + ko)%nat] with (Nat.add (length pre) <$> [ko]).
  rewrite gather_shift by apply indexed_below.
  by rewrite connected_shift.
Qed.

Lemma gather_all (shp : shape3) (nm : nat → string) (sh : nat → shape) :
  gather (reverse (imap pair (rel_nodes (cd_code shp) nm sh))) [89%nat]
  = imap pair (rel_nodes (cd_code shp) nm sh)
  ∧ connected 0 (imap pair (rel_nodes (cd_code shp) nm sh)) = true.
Proof. split; vm_compute; reflexivity. Qed.

(** ** What [cell_detector] builds, in any state of the framework *)

Lemma cd_nodes_cons (shp : shape3) (u : gmap string nat) (new : list shape) :
  cd_nodes shp u new =
  Node (OpLayer (LInput shp)) (layer_name (LInput shp) u).1 [] (input_shape_of shp)
  :: rel_nodes cd_body (name_at (layer_name (LInput shp) u).2 cd_body)
               (λ k, nth k new dummy_shape).
Proof.
  unfold cd_nodes, cd_code, rel_nodes. rewrite imap_cons. by f_equal.
Qed.

Lemma uids_after_cons (l : layer) (ins : list nat) (c : list instr) (u : gmap string nat) :
  uids_after (IApply l ins :: c) u = uids_after c (layer_name l u).2.
Proof. reflexivity. Qed.

Section Master.
Context {V : Type} (num : numerics V).

Lemma cell_detector_run (shp : shape3) (w : world) :
  interp (keras num) (cell_detector shp) w =
  match shape_run cd_body (input_shape_of shp) [input_shape_of shp] with
  | Raise e => Raise e
  | Ok new => Ok (cd_model shp (uids w) (length (graph w)) new, cd_world shp w new)
  end.
Proof.
  rewrite cell_detector_reified.
  unfold Input. rewrite interp_bind, interp_perform, keras_apply.
  destruct shp as [[h wd] c]. cbn [infer_shape fmap list_fmap].
  set (s0 := Shape None h wd c). set (shp := (h, wd, c)).
  set (b := length (graph w)).
  set (x0 := Tensor b s0).
  rewrite interp_bind. change (tensor (KH V)) with ktensor.
  replace [x0] with (new_tensors b [s0])
    by (unfold new_tensors, x0; simpl; by rewrite Nat.add_0_r).
  rewrite run_compile; cycle 1.
  { vm_compute. reflexivity. }
  { unfold add_node. simpl. rewrite length_app. simpl. done. }
  change (input_shape_of shp) with s0. change (t_shape x0) with s0.
  destruct (shape_run cd_body s0 [s0]) as [new|e] eqn:Hrun; [|done].
  pose proof (shape_run_length _ _ _ _ Hrun) as Hlen.
  change (length cd_body) with 89%nat in Hlen.
  unfold Model. rewrite interp_bind, interp_perform. cbn [keras].
  assert (nth 89 (new_tensors b ([s0] ++ new)) x0 = Tensor (b + 89) (nth 88 new s0))
    as ->.
  { pose proof (nth_new_tensors_id b ([s0] ++ new) x0 89) as Hid.
    pose proof (nth_new_tensors_shape b ([s0] ++ new) x0 89) as Hsh.
    destruct (nth 89 (new_tensors b ([s0] ++ new)) x0) as [i s].
    cbn [t_id t_shape] in Hid, Hsh.
    rewrite Hid by (rewrite length_app, Hlen; simpl; lia). by rewrite Hsh. }
  unfold add_node. cbn [graph uids session initialized rng stdout].
  rewrite <-app_assoc.
  match goal with
  | |- context [(graph w ++ ?X)%list] =>
      replace X with (shift b <$> cd_nodes shp (uids w) new)
        by (rewrite cd_nodes_cons; reflexivity)
  end.
  unfold x0, b.
  assert (Hn : cd_nodes shp (uids w) new !! 0%nat
               = Some (Node (OpLayer (LInput shp)) (layer_name (LInput shp) (uids w)).1 []
                       (input_shape_of shp))) by (by rewrite cd_nodes_cons).
  pose proof (new_model_shift (graph w) (cd_nodes shp (uids w) new)
                (uids_after cd_body (layer_name (LInput shp) (uids w)).2)
                (session w) (initialized w) (rng w) (stdout w) 0 89 s0
                (nth 88 new s0) "CellDetector" _ Hn eq_refl) as Hmodel.
  rewrite Nat.add_0_r in Hmodel. 
  rewrite Hmodel.
  destruct (gather_all shp (name_at (uids w) (cd_code shp))
              (λ k, nth k (input_shape_of shp :: new) dummy_shape)) as [Hall Hconn].
  fold (cd_nodes shp (uids w) new) in Hall, Hconn.
  rewrite Hall.
  rewrite Hconn. 
  rewrite interp_ret.
  unfold cd_model, cd_world.
  unfold cd_code at 1.
  rewrite uids_after_cons.
  reflexivity.
Qed.
End Master.

(** ** Shape inference, layer by layer *)

Lemma out_len_same_1 (n k : positive) : out_len same n k 1 = Some n.
Proof.
  unfold out_len. f_equal.
  replace (Z.pos n + 1 - 1)%Z with (Z.pos n) by lia.
  rewrite Z.div_1_r. apply Pos2Z.id.
Qed.

Lemma out_len_valid_1 (n : positive) : out_len valid n 1 1 = Some n.
Proof.
  unfold out_len. destruct (Pos.ltb_spec n 1) as [Hlt|_]; [lia|]. f_equal.
  rewrite Z.div_1_r. replace (Z.pos n - 1 + 1)%Z with (Z.pos n) by lia.
  apply Pos2Z.id.
Qed.

(** A 2x2 'valid' window with stride 2 drops the last row or column of an
    odd input and does not fit an input of size 1. *)
Lemma out_len_pool (n : positive) :
  out_len valid n 2 2 =
  match n with
  | 1 => None
  | p~0 | p~1 => Some p
  end.
Proof.
  unfold out_len. destruct n as [p|p|]; [| |done].
  - destruct (Pos.ltb_spec p~1 2) as [Hlt|_]; [lia|]. f_equal.
    replace (Z.pos p~1 - 2)%Z with (1 + (Z.pos p - 1) * 2)%Z by lia.
    rewrite Z.div_add by lia. change (1 / 2)%Z with 0%Z.
    replace (0 + (Z.pos p - 1) + 1)%Z with (Z.pos p) by lia. apply Pos2Z.id.
  - destruct (Pos.ltb_spec p~0 2) as [Hlt|_]; [lia|]. f_equal.
    replace (Z.pos p~0 - 2)%Z with ((Z.pos p - 1) * 2)%Z by lia.
    rewrite Z.div_mul by lia.
    replace (Z.pos p - 1 + 1)%Z with (Z.pos p) by lia. apply Pos2Z.id.
Qed.

Lemma out_len_pool_Some (n h : positive) :
  out_len valid n 2 2 = Some h → 2 * h ≤ n ∧ n ≤ 2 * h + 1.
Proof.
  rewrite out_len_pool. destruct n as [p|p|]; intros [= <-]; lia.
Qed.

Lemma out_len_pool_None (n : positive) : out_len valid n 2 2 = None → n = 1.
Proof. rewrite out_len_pool. by destruct n. Qed.

Ltac size_facts :=
  repeat match goal with
         | H : out_len valid _ 2 2 = Some _ |- _ => apply out_len_pool_Some in H as [? ?]
         | H : out_len valid _ 2 2 = None |- _ => apply out_len_pool_None in H
         end.

Lemma broadcast_dim_refl (x : positive) : broadcast_dim x x = Some x.
Proof.
  unfold broadcast_dim. destruct (x =? 1); [done|]. by rewrite Pos.eqb_refl.
Qed.

Lemma merge_batch_refl (b : option positive) : merge_batch b b = Some b.
Proof. destruct b as [x|]; simpl; [|done]. by rewrite Pos.eqb_refl. Qed.

Lemma infer_same (f : positive) (k : positive * positive) (nm : option string)
    (s : shape) :
  infer_shape (LConv2D f k (1, 1) same nm) [s] = Ok (with_chans f s).
Proof.
  unfold infer_shape, windowed. cbn [fst snd]. by rewrite !out_len_same_1.
Qed.

Lemma infer_1x1 (f : positive) (nm : option string) (s : shape) :
  infer_shape (LConv2D f (1, 1) (1, 1) valid nm) [s] = Ok (with_chans f s).
Proof.
  unfold infer_shape, windowed. cbn [fst snd]. by rewrite !out_len_valid_1.
Qed.

Lemma infer_add_same (s : shape) : infer_shape LAdd [s; s] = Ok s.
Proof.
  unfold infer_shape. simpl.
  rewrite merge_batch_refl, !broadcast_dim_refl. by destruct s.
Qed.

Lemma infer_pool (s : shape) :
  infer_shape (LAveragePooling2D (2, 2) valid) [s] =
  match out_len valid (height s) 2 2, out_len valid (width s) 2 2 with
  | Some h, Some w => Ok (Shape (batch s) h w (chans s))
  | _, _ => Raise (NegativeDimension (LAveragePooling2D (2, 2) valid) s)
  end.
Proof. reflexivity. Qed.

Lemma infer_up (i : interpolation) (s : shape) :
  infer_shape (LUpSampling2D (2, 2) i) [s] =
  Ok (Shape (batch s) (height s)~0 (width s)~0 (chans s)).
Proof.
  unfold infer_shape. by rewrite !(Pos.mul_comm _ 2).
Qed.

Lemma infer_concat (s1 s2 : shape) :
  infer_shape (LConcatenate (-1)) [s1; s2] =
  if opos_eqb (batch s1) (batch s2) && ((height s1 =? height s2)
     && (width s1 =? width s2))
  then Ok (Shape (batch s1) (height s1) (width s1) (chans s1 + chans s2))
  else Raise (IncompatibleShapes (LConcatenate (-1)) [s1; s2]).
Proof.
  unfold infer_shape. simpl. rewrite !andb_true_r. reflexivity.
Qed.

(** ** Walking the shapes through the network *)

Lemma shape_env_run (c : list instr) (d : shape) :
  ∀ env, shape_env c d env =
         match shape_run c d env with
         | Ok new => Ok (env ++ new)%list
         | Raise e => Raise e
         end.
Proof.
  induction c as [|i c IH]; intros env; simpl.
  - by rewrite app_nil_r.
  - destruct (infer_shape _ _) as [s|e]; [|done].
    rewrite IH. destruct (shape_run c d _) as [new|e]; [|done].
    by rewrite <-app_assoc.
Qed.

Lemma shape_env_cons (l : layer) (ins : list nat) (rest : list instr) (d : shape)
    (env : list shape) :
  shape_env (IApply l ins :: rest) d env =
  match infer_shape l ((λ j, nth j env d) <$> ins) with
  | Ok s => shape_env rest d (env ++ [s])%list
  | Raise e => Raise e
  end.
Proof. reflexivity. Qed.

Lemma shape_env_ok (l : layer) (ins : list nat) (rest : list instr) (d : shape)
    (env : list shape) (s : shape) :
  infer_shape l ((λ j, nth j env d) <$> ins) = Ok s →
  shape_env (IApply l ins :: rest) d env = shape_env rest d (env ++ [s])%list.
Proof. intros Hs. by rewrite shape_env_cons, Hs. Qed.

(** One call whose shape is determined: convolutions with stride 1,
    activations, additions of equal shapes, upsampling. *)
Ltac walk_plain :=
  lazymatch goal with
  | |- context [shape_env (IApply ?l ?ins :: ?rest) ?d ?env] =>
      erewrite (shape_env_ok l ins rest d env)
        by (cbn [fmap list_fmap nth];
            first [apply infer_same | apply infer_1x1 | apply infer_add_same
                  | apply infer_up | reflexivity]);
      unfold with_chans; cbn [app batch height width chans]
  end.

(** A pooling: either dimension may be too small for the window. *)
Ltac walk_pool :=
  lazymatch goal with
  | |- context [shape_env (IApply (LAveragePooling2D (2, 2) valid) ?ins :: ?rest) ?d ?env] =>
      rewrite (shape_env_cons (LAveragePooling2D (2, 2) valid) ins rest d env);
      cbn [fmap list_fmap nth]; rewrite infer_pool; cbn [batch height width chans];
      let h := fresh "h" in
      let w := fresh "w" in
      let Hh := fresh "Hh" in
      let Hw := fresh "Hw" in
      lazymatch goal with
      | |- context [match out_len valid ?x 2 2 with _ => _ end] =>
          destruct (out_len valid x 2 2) as [h|] eqn:Hh; [|reflexivity]
      end;
      lazymatch goal with
      | |- context [match out_len valid ?x 2 2 with _ => _ end] =>
          destruct (out_len valid x 2 2) as [w|] eqn:Hw; [|reflexivity]
      end;
      cbn [app]
  end.

(** A concatenation: the spatial sizes of the two inputs may differ. *)
Ltac walk_concat :=
  lazymatch goal with
  | |- context [shape_env (IApply (LConcatenate (-1)) ?ins :: ?rest) ?d ?env] =>
      rewrite (shape_env_cons (LConcatenate (-1)) ins rest d env);
      cbn [fmap list_fmap nth]; rewrite infer_concat;
      cbn [batch height width chans opos_eqb andb];
      let Hh := fresh "Hc" in
      let Hw := fresh "Hd" in
      lazymatch goal with
      | |- context [(?a =? ?b) && _] =>
          destruct (Pos.eqb_spec a b) as [Hh|Hh]; cbn [andb]; [|reflexivity]
      end;
      lazymatch goal with
      | |- context [if (?a =? ?b) then _ else _] =>
          destruct (Pos.eqb_spec a b) as [Hw|Hw]; [|reflexivity]
      end;
      cbn [app]
  end.

Ltac walk := first [walk_plain | walk_pool | walk_concat].

(** The same steps when the sizes are known to be even where it matters. *)
Ltac walk_even :=
  lazymatch goal with
  | |- context [shape_env (IApply ?l ?ins :: ?rest) ?d ?env] =>
      erewrite (shape_env_ok l ins rest d env)
        by (cbn [fmap list_fmap nth];
            first [apply infer_same | apply infer_1x1 | apply infer_add_same
                  | apply infer_up
                  | rewrite infer_pool; cbn [batch height width chans];
                    rewrite !out_len_pool; reflexivity
                  | rewrite infer_concat; cbn [batch height width chans opos_eqb andb];
                    rewrite !Pos.eqb_refl; reflexivity
                  | reflexivity]);
      unfold with_chans; cbn [app batch height width chans]
  end.

Lemma cd_shapes_verdict (H W C : positive) :
  build_verdict H W (shape_env cd_body (Shape None H W C) [Shape None H W C]).
Proof.
  unfold cd_body. repeat walk.
  subst. split; [exists h2 | exists w2]; lia.
Qed.

Lemma cd_shapes_even (h w C : positive) :
  shape_env cd_body (Shape None (16 * h) (16 * w) C) [Shape None (16 * h) (16 * w) C]
  = Ok (cd_shapes h w C).
Proof.
  change (16 * h) with h~0~0~0~0. change (16 * w) with w~0~0~0~0.
  unfold cd_body. repeat walk_even. reflexivity.
Qed.

(** The shapes [cell_detector] computes, for every input shape. *)
Lemma cd_shape_run (H W C : positive) :
  match shape_run cd_body (Shape None H W C) [Shape None H W C] with
  | Ok new =>
      ∃ h w, H = 16 * h ∧ W = 16 * w ∧ Shape None H W C :: new = cd_shapes h w C
  | Raise e =>
      is_pool_or_concat_error e = true ∧ ¬ ((16 | H) ∧ (16 | W))
  end.
Proof.
  pose proof (cd_shapes_verdict H W C) as Hv.
  pose proof (shape_env_run cd_body (Shape None H W C) [Shape None H W C]) as Hrun.
  destruct (shape_run cd_body _ _) as [new|e].
  - rewrite Hrun in Hv. destruct Hv as [[h Hh] [w Hw]].
    exists h, w. rewrite (Pos.mul_comm h) in Hh. rewrite (Pos.mul_comm w) in Hw.
    subst H W. rewrite cd_shapes_even in Hrun. by injection Hrun as <-.
  - rewrite Hrun in Hv. split; [exact Hv|].
    intros [[h Hh] [w Hw]].
    rewrite (Pos.mul_comm h) in Hh. rewrite (Pos.mul_comm w) in Hw.
    subst H W. by rewrite cd_shapes_even in Hrun.
Qed.

(** ** The layer table of the cell detector *)

Lemma unshift_shift (b : nat) (l : list nat) :
  (λ i, i - b)%nat <$> (Nat.add b <$> l) = l.
Proof.
  rewrite <-list_fmap_compose. rewrite <-(list_fmap_id l) at 2.
  apply list_fmap_ext. intros k i _. simpl. lia.
Qed.

Lemma table_rel (c : list instr) (nm : nat → string) (sh : nat → shape) (b : nat) :
  (λ jn : nat * node,
     Row (n_op jn.2) ((λ i, i - b)%nat <$> n_inputs jn.2) (n_shape jn.2))
  <$> (shift_entry b <$> imap pair (rel_nodes c nm sh))
  = imap (λ k i, Row (OpLayer (layer_of i)) (inputs_of i) (sh k)) c.
Proof.
  apply list_eq. intros k. unfold rel_nodes.
  rewrite !list_lookup_fmap, !list_lookup_imap.
  destruct (c !! k) as [i|]; [|done]. simpl. by rewrite unshift_shift.
Qed.

Lemma ids_rel (c : list instr) (nm : nat → string) (sh : nat → shape) (b : nat) :
  (λ i, i - b)%nat <$> (fst <$> (shift_entry b <$> imap pair (rel_nodes c nm sh)))
  = seq 0 (length c).
Proof.
  apply list_eq. intros k. unfold rel_nodes.
  rewrite !list_lookup_fmap, !list_lookup_imap.
  destruct (c !! k) as [i|] eqn:Hk; simpl.
  - rewrite lookup_seq_lt by (by eapply lookup_lt_Some). f_equal. lia.
  - symmetry. apply lookup_seq_ge. by apply lookup_ge_None.
Qed.

Lemma table_cd_model (shp : shape3) (u : gmap string nat) (b : nat) (new : list shape) :
  table (cd_model shp u b new) = cd_table shp (input_shape_of shp :: new).
Proof.
  unfold table, cd_model, cd_nodes, cd_table. cbn [m_layers m_input t_id].
  apply table_rel.
Qed.

Lemma structure_cd_model (shp : shape3) (u : gmap string nat) (b : nat)
    (new : list shape) :
  structure (cd_model shp u b new)
  = ("CellDetector", seq 0 (length (cd_code shp)),
     cd_table shp (input_shape_of shp :: new), input_shape_of shp, 89%nat,
     nth 88 new (input_shape_of shp)).
Proof.
  unfold structure. rewrite table_cd_model.
  unfold cd_model, cd_nodes. cbn [m_layers m_input m_output m_name t_id t_shape].
  rewrite ids_rel. repeat f_equal. lia.
Qed.

(** ** Claims about [cell_detector] *)

(** C10. [cell_detector] is a deterministic graph declaration: whatever the
    state of the framework (layers declared before, name counters, session)
    at the time of two calls with the same [input_shape], both calls fail
    with the same exception or both declare models with the same structure:
    the same layers with the same configuration and explicit names
    (res_<stage>_branch_2_a and 2_b), the same wiring and the same
    shapes. *)
Theorem cell_detector_deterministic {V1 V2 : Type} (num1 : numerics V1)
    (num2 : numerics V2) (input_shape : shape3) (w1 w2 : world) :
  match interp (keras num1) (cell_detector input_shape) w1,
        interp (keras num2) (cell_detector input_shape) w2 with
  | Ok (m1, _), Ok (m2, _) => structure m1 = structure m2
  | Raise e1, Raise e2 => e1 = e2
  | _, _ => False
  end.
Proof.
  rewrite !cell_detector_run.
  destruct (shape_run cd_body _ _) as [new|e]; [|done].
  by rewrite !structure_cd_model.
Qed.

(** ** Unknown sizes *)

Lemma dout_len_known (pad : padding) (n k s : positive) :
  dout_len pad (Some n) k s = Some <$> out_len pad n k s.
Proof. reflexivity. Qed.

Lemma dwindowed_known (l : layer) (pad : padding) (k st : positive * positive)
    (c : positive) (s : shape) :
  dwindowed l pad k st (Some c) (known s)
  = match windowed l pad k st c s with
    | Ok r => Ok (known r)
    | Raise e => Raise (lift_error e)
    end.
Proof.
  unfold dwindowed, windowed, known. cbn [dheight dwidth dbatch dout_len].
  destruct (out_len pad (height s) k.1 st.1) as [h|]; [|done].
  by destruct (out_len pad (width s) k.2 st.2) as [w|].
Qed.

Lemma dmerge_known (ss : list shape) (acc : option shape) :
  fold_left dmerge_shape (known <$> ss) (known <$> acc)
  = known <$> fold_left merge_shape ss acc.
Proof.
  revert acc. induction ss as [|s ss IH]; intros acc; [done|].
  rewrite fmap_cons. cbn [fold_left]. rewrite <-IH. f_equal.
  destruct acc as [a|]; [|done]. cbn [fmap option_fmap option_map].
  unfold dmerge_shape, merge_shape, known.
  cbn [dbatch dheight dwidth dchans dbroadcast_dim].
  destruct (merge_batch (batch a) (batch s)) as [b|]; [|done].
  destruct (broadcast_dim (height a) (height s)) as [h|]; [|done].
  destruct (broadcast_dim (width a) (width s)) as [w|]; [|done].
  by destruct (broadcast_dim (chans a) (chans s)) as [c|].
Qed.

Lemma dreduced_known (ax : Z) (s : shape) : dreduced ax (known s) = reduced ax s.
Proof.
  unfold dreduced, reduced, known. cbn [dbatch dheight dwidth dchans].
  by repeat destruct (_ =? _)%Z.
Qed.

Lemma dconcat_known (ax : Z) (ss : list shape) (a : shape) :
  fold_left (dconcat_shape ax) (known <$> ss) (known a)
  = known (fold_left (concat_shape ax) ss a).
Proof.
  revert a. induction ss as [|s ss IH]; intros a; [done|].
  rewrite fmap_cons. cbn [fold_left]. rewrite <-IH. f_equal.
  unfold dconcat_shape, concat_shape, known.
  cbn [dbatch dheight dwidth dchans oadd].
  by repeat destruct (_ =? _)%Z.
Qed.

(** On shapes whose sizes are all known, the layers do what [infer_shape]
    says. *)
Lemma infer_dshape_known (l : layer) (ss : list shape) :
  infer_dshape l (known <$> ss)
  = match infer_shape l ss with
    | Ok s => Ok (known s)
    | Raise e => Raise (lift_error e)
    end.
Proof.
  destruct l as [[[h w] c]| |f k st pad nm|r|r| |k pad|[sh sw] i|axis].
  - destruct ss; [done|]. simpl. by rewrite length_fmap.
  - destruct ss as [|s [|]]; [done|done|]. simpl. by rewrite length_fmap.
  - destruct ss as [|s [|]]; [done| |simpl; by rewrite length_fmap].
    cbn [fmap list_fmap infer_dshape infer_shape known dchans].
    apply dwindowed_known.
  - destruct ss as [|s [|]]; [done|done|]. simpl. by rewrite length_fmap.
  - destruct ss as [|s [|]]; [done|done|]. simpl. by rewrite length_fmap.
  - destruct ss as [|s [|s' rest]]; [done|done|].
    change (infer_dshape LAdd (known <$> s :: s' :: rest))
      with (match fold_left dmerge_shape (known <$> s' :: rest) (known <$> Some s) with
            | Some r => Ok r
            | None => Raise (DIncompatibleShapes LAdd (known <$> s :: s' :: rest))
            end).
    rewrite dmerge_known. cbn [infer_shape].
    by destruct (fold_left merge_shape _ _).
  - destruct ss as [|s [|]]; [done| |simpl; by rewrite length_fmap].
    cbn [fmap list_fmap infer_dshape infer_shape].
    change (dchans (known s)) with (Some (chans s)).
    apply dwindowed_known.
  - destruct ss as [|s [|]]; [done| |simpl; by rewrite length_fmap].
    destruct s as [b h w c]. reflexivity.
  - destruct ss as [|s [|s' rest]]; [done|done|].
    change (infer_dshape (LConcatenate axis) (known <$> s :: s' :: rest))
      with (match normal_axis axis with
            | None => Raise (DBadAxis axis)
            | Some ax =>
                if forallb (λ t, reduced_eqb (dreduced ax (known s)) (dreduced ax t))
                           (known <$> s' :: rest)
                then Ok (fold_left (dconcat_shape ax) (known <$> s' :: rest) (known s))
                else Raise (DIncompatibleShapes (LConcatenate axis)
                                                (known <$> s :: s' :: rest))
            end).
    cbn [infer_shape].
    destruct (normal_axis axis) as [ax|] eqn:Hax; [|done].
    assert (forallb (λ t, reduced_eqb (dreduced ax (known s)) (dreduced ax t))
                    (known <$> s' :: rest)
            = forallb (λ t, reduced_eqb (reduced ax s) (reduced ax t)) (s' :: rest)) as ->.
    { generalize (s' :: rest). intros l. induction l as [|t l IH]; [done|].
      rewrite fmap_cons. cbn [forallb]. by rewrite IH, !dreduced_known. }
    destruct (forallb _ _); [|done].
    f_equal. apply dconcat_known.
Qed.

Lemma dshape_run_known (c : list instr) (d : shape) :
  ∀ env, dshape_run c (known d) (known <$> env)
         = match shape_run c d env with
           | Ok new => Ok (known <$> new)
           | Raise e => Raise (lift_error e)
           end.
Proof.
  induction c as [|i c IH]; intros env; [done|].
  cbn [dshape_run shape_run].
  assert ((λ j, nth j (known <$> env) (known d)) <$> inputs_of i
          = known <$> ((λ j, nth j env d) <$> inputs_of i)) as ->.
  { rewrite <-list_fmap_compose. apply list_fmap_ext. intros k j _. simpl.
    change (known <$> env) with (map known env). apply map_nth. }
  rewrite infer_dshape_known.
  destruct (infer_shape _ _) as [s|e]; [|done].
  change [known s] with (known <$> [s]). rewrite <-fmap_app, IH.
  by destruct (shape_run c d _).
Qed.

Lemma dshape_env_run (c : list instr) (d : dshape) :
  ∀ env, dshape_env c d env =
         match dshape_run c d env with
         | Ok new => Ok (env ++ new)%list
         | Raise e => Raise e
         end.
Proof.
  induction c as [|i c IH]; intros env; simpl.
  - by rewrite app_nil_r.
  - destruct (infer_dshape _ _) as [s|e]; [|done].
    rewrite IH. destruct (dshape_run c d _) as [new|e]; [|done].
    by rewrite <-app_assoc.
Qed.

Lemma dshape_env_cons (l : layer) (ins : list nat) (rest : list instr) (d : dshape)
    (env : list dshape) :
  dshape_env (IApply l ins :: rest) d env =
  match infer_dshape l ((λ j, nth j env d) <$> ins) with
  | Ok s => dshape_env rest d (env ++ [s])%list
  | Raise e => Raise e
  end.
Proof. reflexivity. Qed.

Lemma dshape_env_ok (l : layer) (ins : list nat) (rest : list instr) (d : dshape)
    (env : list dshape) (s : dshape) :
  infer_dshape l ((λ j, nth j env d) <$> ins) = Ok s →
  dshape_env (IApply l ins :: rest) d env = dshape_env rest d (env ++ [s])%list.
Proof. intros Hs. by rewrite dshape_env_cons, Hs. Qed.

Lemma dout_len_same_1 (n : option positive) (k : positive) :
  dout_len same n k 1 = Some n.
Proof. destruct n as [n|]; [|done]. cbn [dout_len]. by rewrite out_len_same_1. Qed.

Lemma dout_len_valid_1 (n : option positive) : dout_len valid n 1 1 = Some n.
Proof. destruct n as [n|]; [|done]. cbn [dout_len]. by rewrite out_len_valid_1. Qed.

Lemma dinfer_same (f : positive) (k : positive * positive) (nm : option string)
    (b h w : option positive) (c : positive) :
  infer_dshape (LConv2D f k (1, 1) same nm) [DShape b h w (Some c)]
  = Ok (DShape b h w (Some f)).
Proof.
  unfold infer_dshape, dwindowed. cbn [fst snd dchans dheight dwidth dbatch].
  by rewrite !dout_len_same_1.
Qed.

Lemma dinfer_1x1 (f : positive) (nm : option string) (b h w : option positive)
    (c : positive) :
  infer_dshape (LConv2D f (1, 1) (1, 1) valid nm) [DShape b h w (Some c)]
  = Ok (DShape b h w (Some f)).
Proof.
  unfold infer_dshape, dwindowed. cbn [fst snd dchans dheight dwidth dbatch].
  by rewrite !dout_len_valid_1.
Qed.

Lemma dbroadcast_dim_refl (x : option positive) : dbroadcast_dim x x = Some x.
Proof.
  destruct x as [x|]; [|done]. cbn [dbroadcast_dim]. by rewrite broadcast_dim_refl.
Qed.

Lemma dinfer_add_same (s : dshape) : infer_dshape LAdd [s; s] = Ok s.
Proof.
  unfold infer_dshape. simpl.
  rewrite merge_batch_refl, !dbroadcast_dim_refl. by destruct s.
Qed.

Lemma dinfer_pool (b h w c : option positive) :
  infer_dshape (LAveragePooling2D (2, 2) valid) [DShape b h w c] =
  match dout_len valid h 2 2, dout_len valid w 2 2 with
  | Some h', Some w' => Ok (DShape b h' w' c)
  | _, _ => Raise (DNegativeDimension (LAveragePooling2D (2, 2) valid) (DShape b h w c))
  end.
Proof. reflexivity. Qed.

Lemma dinfer_up (i : interpolation) (b h w c : option positive) :
  infer_dshape (LUpSampling2D (2, 2) i) [DShape b h w c] =
  Ok (DShape b (xO <$> h) (xO <$> w) c).
Proof.
  unfold infer_dshape. cbn [dbatch dheight dwidth dchans].
  destruct h as [h|], w as [w|]; cbn [fmap option_fmap option_map];
    by rewrite ?(Pos.mul_comm _ 2).
Qed.

Lemma dinfer_concat (b1 h1 w1 c1 b2 h2 w2 c2 : option positive) :
  infer_dshape (LConcatenate (-1)) [DShape b1 h1 w1 c1; DShape b2 h2 w2 c2] =
  if opos_eqb b1 b2 && (opos_eqb h1 h2 && opos_eqb w1 w2)
  then Ok (DShape b1 h1 w1 (oadd c1 c2))
  else Raise (DIncompatibleShapes (LConcatenate (-1))
                                  [DShape b1 h1 w1 c1; DShape b2 h2 w2 c2]).
Proof.
  unfold infer_dshape. simpl. rewrite !andb_true_r. reflexivity.
Qed.

(** One call whose shape is determined, whatever is known of the sizes. *)
Ltac dwalk_plain :=
  lazymatch goal with
  | |- context [dshape_env (IApply ?l ?ins :: ?rest) ?d ?env] =>
      erewrite (dshape_env_ok l ins rest d env)
        by (cbn [fmap list_fmap nth];
            first [apply dinfer_same | apply dinfer_1x1 | apply dinfer_add_same
                  | apply dinfer_up | reflexivity]);
      cbn [app fmap option_fmap option_map oadd]
  end.

Ltac known_sizes :=
  let Hh := fresh in let Hw := fresh in
  intros [Hh Hw];
  try (let k := fresh in let E := fresh in destruct (Hh _ eq_refl) as [k E]);
  try (let k := fresh in let E := fresh in destruct (Hw _ eq_refl) as [k E]).

Ltac refused := cbn [dverdict]; known_sizes; size_facts; lia.

(** A pooling: a known size may be too small for the window. *)
Ltac dwalk_pool :=
  lazymatch goal with
  | |- context [dshape_env (IApply (LAveragePooling2D (2, 2) valid) ?ins :: ?rest) ?d ?env] =>
      rewrite (dshape_env_cons (LAveragePooling2D (2, 2) valid) ins rest d env);
      cbn [fmap list_fmap nth]; rewrite dinfer_pool;
      repeat lazymatch goal with
        | |- context [dout_len valid None 2 2] =>
            change (dout_len valid None 2 2) with (@Some (option positive) None)
        | |- context [dout_len valid (Some ?x) 2 2] =>
            rewrite (dout_len_known valid x 2 2);
            let h := fresh x in
            let Hh := fresh "Hp" in
            destruct (out_len valid x 2 2) as [h|] eqn:Hh;
              cbn [fmap option_fmap option_map]; [|refused]
        end;
      cbn [app]
  end.

(** A concatenation: known sizes of the two inputs may differ. *)
Ltac dwalk_concat :=
  lazymatch goal with
  | |- context [dshape_env (IApply (LConcatenate (-1)) ?ins :: ?rest) ?d ?env] =>
      rewrite (dshape_env_cons (LConcatenate (-1)) ins rest d env);
      cbn [fmap list_fmap nth]; rewrite dinfer_concat;
      cbn [opos_eqb andb];
      repeat lazymatch goal with
        | |- context [(?a =? ?b)%positive] =>
            let Hc := fresh "Hc" in
            destruct (Pos.eqb_spec a b) as [Hc|Hc]; cbn [andb]; [|refused]
        end;
      cbn [app oadd]
  end.

(** All the calls went through: a known size is 16 times what is left of
    it after the four poolings. *)
Ltac built :=
  cbn [dshape_env dverdict]; split; [|split; [|reflexivity]];
  (let k := fresh in let Hk := fresh in
   intros k Hk;
   first [discriminate Hk
         | injection Hk as <-;
           match goal with n : positive |- _ => exists n; lia end]).

Lemma cd_dshapes_verdict (H W : option positive) (C : positive) :
  dverdict H W (dshape_env cd_body (input_dshape H W (Some C))
                           [input_dshape H W (Some C)]).
Proof.
  unfold input_dshape, cd_body.
  destruct H as [H|], W as [W|];
    repeat first [dwalk_plain | dwalk_pool | dwalk_concat]; built.
Qed.

Lemma dshape_run_length (c : list instr) (d : dshape) :
  ∀ env new, dshape_run c d env = Ok new → length new = length c.
Proof.
  induction c as [|i c IH]; intros env new; simpl.
  - by intros [= <-].
  - destruct (infer_dshape _ _) as [s|e]; [|done].
    destruct (dshape_run c d _) as [new'|e] eqn:Hrec; [|done].
    intros [= <-]. simpl. f_equal. eauto.
Qed.

(** The shapes after [Input] when sizes may be unknown. *)
Lemma cd_dshape_run (H W : option positive) (C : positive) :
  match dshape_run cd_body (input_dshape H W (Some C)) [input_dshape H W (Some C)] with
  | Ok new => ok16 H ∧ ok16 W ∧ list.last new = Some (DShape None H W (Some 1))
  | Raise e => ¬ (ok16 H ∧ ok16 W)
  end.
Proof.
  pose proof (cd_dshapes_verdict H W C) as Hv. rewrite dshape_env_run in Hv.
  destruct (dshape_run cd_body _ _) as [new|e] eqn:Hrun.
  - destruct Hv as (Hh & Hw & Hlast). split; [done|]. split; [done|].
    apply dshape_run_length in Hrun.
    destruct new as [|s new]; [done|exact Hlast].
  - cbn [dverdict] in Hv. by destruct e as [[]|[]| | | |].
Qed.



(** A network that was built has the shapes of a 16x16 input, scaled. *)
Lemma cell_detector_ok {V : Type} (num : numerics V) (shp : shape3) (w w' : world)
    (m : kmodel) :
  interp (keras num) (cell_detector shp) w = Ok (m, w') →
  ∃ h wd C, shp = (16 * h, 16 * wd, C) ∧
            table m = cd_table shp (cd_shapes h wd C) ∧
            t_shape (m_input m) = Shape None (16 * h) (16 * wd) C ∧
            t_shape (m_output m) = Shape None (16 * h) (16 * wd) 1.
Proof.
  rewrite cell_detector_run. destruct shp as [[H W] C].
  change (input_shape_of (H, W, C)) with (Shape None H W C).
  pose proof (cd_shape_run H W C) as Hrun.
  destruct (shape_run cd_body _ _) as [new|e]; [|done].
  destruct Hrun as (h & wd & -> & -> & Hshapes).
  intros [= <- _]. exists h, wd, C. split; [done|].
  rewrite table_cd_model.
  change (input_shape_of (16 * h, 16 * wd, C)) with (Shape None (16 * h) (16 * wd) C).
  rewrite Hshapes. split; [done|]. split; [done|].
  unfold cd_model. cbn [m_output t_shape].
  change (nth 88 new (input_shape_of (16 * h, 16 * wd, C)))
    with (nth 89 (Shape None (16 * h) (16 * wd) C :: new) (Shape None (16 * h) (16 * wd) C)).
  rewrite Hshapes. reflexivity.
Qed.

Ltac each_row tac :=
  repeat (apply List.Forall_cons; [tac|]); apply List.Forall_nil.

Lemma cd_pool_halves (h w C : positive) :
  pool_halves (cd_table (16 * h, 16 * w, C) (cd_shapes h w C)).
Proof.
  unfold pool_halves.
  set (t := cd_table _ _).
  let t' := eval vm_compute in t in change (Forall (λ r, is_pool r = true →
               ∃ x, input_rows t r = [x] ∧
                    height (r_shape x) = 2 * height (r_shape r) ∧
                    width (r_shape x) = 2 * width (r_shape r)) t').
  each_row ltac:(intros Hp; first [discriminate Hp | by eexists]).
Qed.

(** ** What [residual_block] builds *)

Lemma infer_add_block (F2 : positive) (s : shape) :
  infer_shape LAdd [with_chans F2 s; s] =
  match broadcast_dim F2 (chans s) with
  | Some c => Ok (with_chans c s)
  | None => Raise (IncompatibleShapes LAdd [with_chans F2 s; s])
  end.
Proof.
  unfold infer_shape. simpl. rewrite merge_batch_refl, !broadcast_dim_refl.
  by destruct (broadcast_dim F2 (chans s)).
Qed.

Section Block.
Context {V : Type} (num : numerics V).

Lemma step_ok_world (l : layer) (ins : list ktensor) (s : shape) {A}
    (k : ktensor → prog (KH V) A) u g se ini r so :
  infer_shape l (t_shape <$> ins) = Ok s →
  interp (keras num) (perform (Apply (H:=KH V) l ins) ≫= k) (World u g se ini r so) =
  interp (keras num) (k (Tensor (length g) s))
    (World (layer_name l u).2 (g ++ [Node (OpLayer l) (layer_name l u).1 (t_id <$> ins) s])
           se ini r so).
Proof. intros Hs. by rewrite (step_ok num l ins s k _ Hs). Qed.

Lemma residual_block_run (X : ktensor) (F1 F2 ch : positive) (stage : Z) (w : world) :
  interp (keras num) (residual_block (H:=KH V) X (F1, F2) ch stage) w =
  match broadcast_dim F2 (chans (t_shape X)) with
  | Some c =>
      Ok (Tensor (length (graph w) + 7) (with_chans ch (t_shape X)),
          block_world X F1 F2 ch stage c w)
  | None => Raise (IncompatibleShapes LAdd [with_chans F2 (t_shape X); t_shape X])
  end.
Proof.
  destruct w as [u g se ini r so]. destruct X as [x sx].
  unfold residual_block, ELU, Conv2D, Dropout, Lambda_scale, Add.
  rewrite (step_ok_world LELU _ sx) by reflexivity.
  cbn [fmap list_fmap t_id].
  rewrite (step_ok_world _ _ (with_chans F1 sx)) by (cbn [fmap list_fmap t_shape]; rewrite infer_same; reflexivity).
  cbn [fmap list_fmap t_id].
  rewrite (step_ok_world (LDropout dropout_rate) _ (with_chans F1 sx)) by reflexivity.
  cbn [fmap list_fmap t_id].
  rewrite (step_ok_world LELU _ (with_chans F1 sx)) by reflexivity.
  cbn [fmap list_fmap t_id].
  rewrite (step_ok_world _ _ (with_chans F2 sx)) by (cbn [fmap list_fmap t_shape]; rewrite infer_same; reflexivity).
  cbn [fmap list_fmap t_id].
  rewrite (step_ok_world (LLambdaScale scaling_factor) _ (with_chans F2 sx)) by reflexivity.
  cbn [fmap list_fmap t_id t_shape].
  destruct (broadcast_dim F2 (chans sx)) as [c|] eqn:Hc.
  - rewrite (step_ok_world LAdd _ (with_chans c sx))
      by (cbn [fmap list_fmap t_shape]; rewrite infer_add_block; by rewrite Hc).
    cbn [fmap list_fmap t_id].
    rewrite (step_ok_world _ _ (with_chans ch sx)) by (cbn [fmap list_fmap t_shape]; rewrite infer_1x1; reflexivity).
    rewrite interp_ret. unfold block_world, block_nodes.
    cbn [graph uids session initialized rng stdout t_id t_shape fmap list_fmap].
    rewrite !length_app. cbn [length]. rewrite <-!app_assoc. cbn [app].
    rewrite <-!Nat.add_assoc. cbn [Nat.add]. reflexivity.
  - rewrite step_raise with (e := IncompatibleShapes LAdd [with_chans F2 sx; sx]); [done|].
    cbn [fmap list_fmap t_shape]. rewrite infer_add_block. by rewrite Hc.
Qed.
End Block.

(** When the construction fails, a pooling or a concatenation refused its
    input. *)
Lemma cell_detector_raise {V : Type} (num : numerics V) (shp : shape3) (w : world)
    (e : error) :
  interp (keras num) (cell_detector shp) w = Raise e →
  is_pool_or_concat_error e = true.
Proof.
  rewrite cell_detector_run. destruct shp as [[H W] C].
  change (input_shape_of (H, W, C)) with (Shape None H W C).
  pose proof (cd_shape_run H W C) as Hrun.
  destruct (shape_run cd_body _ _) as [new|e']; [done|].
  intros [= <-]. apply Hrun.
Qed.

(** ** Claims about [residual_block] *)

Lemma broadcast_dim_is_Some (i j : positive) :
  is_Some (broadcast_dim i j) ↔ i = j ∨ i = 1 ∨ j = 1.
Proof.
  unfold broadcast_dim.
  destruct (Pos.eqb_spec i 1) as [->|Hi]; [split; eauto|].
  destruct (Pos.eqb_spec j 1) as [->|Hj]; [split; eauto|].
  destruct (Pos.eqb_spec i j) as [->|Hij]; [split; eauto|].
  split; [by intros [? ?]|]. by intros [?|[?|?]].
Qed.

(** The wiring of the nine blocks, whatever the shapes. *)
Lemma cd_blocks (shp : shape3) (shapes : list shape) :
  Forall (block_at (cd_table shp shapes)) cd_calls.
Proof.
  unfold cd_calls. repeat (apply List.Forall_cons; [vm_compute; reflexivity|]).
  apply List.Forall_nil.
Qed.

Lemma cd_sites_match (h w C : positive) :
  Forall (site_channels_match (cd_table (16 * h, 16 * w, C) (cd_shapes h w C))) cd_calls.
Proof.
  unfold cd_calls.
  repeat (apply List.Forall_cons; [eexists; split; vm_compute; reflexivity|]).
  apply List.Forall_nil.
Qed.

Lemma cd_adds_agree (h w C : positive) :
  adds_agree (cd_table (16 * h, 16 * w, C) (cd_shapes h w C)).
Proof.
  unfold adds_agree.
  set (t := cd_table _ _).
  let t' := eval vm_compute in t in
    change (Forall (λ r, is_add r = true →
               ∃ a x, input_rows t r = [a; x] ∧ r_shape a = r_shape x ∧
                      r_shape r = r_shape x) t').
  each_row ltac:(intros Hp; first [discriminate Hp | by eexists _, _]).
Qed.

(** C7 (as amended).  The addition in [residual_block] is accepted exactly
    when the second filter count F2 and the channel count of X are equal or
    one of them is 1 (the framework's addition broadcasts axes of size 1);
    otherwise the call raises the addition's shape error.  When the call
    succeeds, the tensor it returns is the output of the final 1x1
    convolution and has [channels] channels and the batch and spatial sizes
    of X.  In every network [cell_detector] builds, the nine blocks are in
    place, at each of them F2 is the channel count of the block's input,
    every addition adds tensors of one shape, and [cell_detector] never
    fails with the addition's error. *)
Theorem residual_block_add_valid {V : Type} (num : numerics V) :
  (∀ (X : ktensor) (F1 F2 channels : positive) (stage : Z) (w : world),
     ((∃ A w', interp (keras num) (residual_block (H:=KH V) X (F1, F2) channels stage) w
               = Ok (A, w'))
      ↔ F2 = chans (t_shape X) ∨ F2 = 1 ∨ chans (t_shape X) = 1)
     ∧ (∀ A w', interp (keras num) (residual_block (H:=KH V) X (F1, F2) channels stage) w
                = Ok (A, w') →
                t_shape A = with_chans channels (t_shape X) ∧
                ∃ name s,
                  graph w' !! t_id A =
                  Some (Node (OpLayer (LConv2D channels (1, 1) (1, 1) valid None)) name
                             [(length (graph w) + 6)%nat] (with_chans channels (t_shape X))) ∧
                  graph w' !! (length (graph w) + 6)%nat =
                  Some (Node (OpLayer LAdd) s [(length (graph w) + 5)%nat; t_id X]
                             (with_chans (default 1 (broadcast_dim F2 (chans (t_shape X))))
                                         (t_shape X))))
     ∧ (∀ e, interp (keras num) (residual_block (H:=KH V) X (F1, F2) channels stage) w
             = Raise e →
             e = IncompatibleShapes LAdd [with_chans F2 (t_shape X); t_shape X]))
  ∧ (∀ (input_shape : shape3) (w : world),
       match interp (keras num) (cell_detector input_shape) w with
       | Ok (m, _) =>
           Forall (λ cs, block_at (table m) cs ∧ site_channels_match (table m) cs) cd_calls
           ∧ adds_agree (table m)
       | Raise e => is_add_error e = false
       end).
Proof.
  split.
  - intros X F1 F2 ch stage w. rewrite residual_block_run.
    pose proof (broadcast_dim_is_Some F2 (chans (t_shape X))) as Hb.
    destruct (broadcast_dim F2 (chans (t_shape X))) as [c|] eqn:Hc.
    + split; [split; [intros _; apply Hb; eauto | eauto]|]. split; [|done].
      intros A w' [= <- <-]. split; [done|].
      unfold block_world, block_nodes. cbn [graph t_id default].
      eexists _, _. split.
      * rewrite lookup_app_r by lia.
        replace (length (graph w) + 7 - length (graph w))%nat with 7%nat by lia.
        reflexivity.
      * rewrite lookup_app_r by lia.
        replace (length (graph w) + 6 - length (graph w))%nat with 6%nat by lia.
        reflexivity.
    + split; [split|split].
      * by intros (A & w' & ?).
      * intros HF. apply Hb in HF. by destruct HF.
      * done.
      * by intros e [= <-].
  - intros shp w.
    destruct (interp (keras num) (cell_detector shp) w) as [[m w']|e] eqn:Hrun.
    + apply cell_detector_ok in Hrun as (h & wd & C & -> & -> & _).
      split; [|apply cd_adds_agree].
      pose proof (cd_blocks (16 * h, 16 * wd, C) (cd_shapes h wd C)) as H1.
      pose proof (cd_sites_match h wd C) as H2.
      rewrite List.Forall_forall in *. intros cs Hcs. split; [by apply H1 | by apply H2].
    + apply cell_detector_raise in Hrun.
      by destruct e as [[]| [] | | | | | | | | | |].
Qed.

(** C7, as stated, fails: on an input with one channel the block with
    [filters=[3, 3]] is built, the addition broadcasting the shortcut. *)
Lemma residual_block_add_broadcasts :
  ∃ X w A w',
    interp (keras scalar) (perform (Placeholder "float" (Shape (Some 5) 128 128 1)))
           fresh_world = Ok (X, w)
    ∧ interp (keras scalar) (residual_block (H:=KH Q) X (3, 3) 3 1) w = Ok (A, w')
    ∧ (3 ≠ chans (t_shape X)).
Proof.
  eexists _, _, _, _. split; [reflexivity|]. split; [vm_compute; reflexivity|].
  cbn. discriminate.
Qed.

(** ** Claims about the shapes of the network *)

Lemma cd_up_doubles (h w C : positive) :
  up_doubles (cd_table (16 * h, 16 * w, C) (cd_shapes h w C)).
Proof.
  unfold up_doubles.
  set (t := cd_table _ _).
  let t' := eval vm_compute in t in
    change (Forall (λ r, is_up r = true →
               ∃ x, input_rows t r = [x] ∧
                    height (r_shape r) = 2 * height (r_shape x) ∧
                    width (r_shape r) = 2 * width (r_shape x)) t').
  each_row ltac:(intros Hp; first [discriminate Hp | by eexists]).
Qed.

Lemma cd_concat_joins (h w C : positive) :
  concat_joins (cd_table (16 * h, 16 * w, C) (cd_shapes h w C)).
Proof.
  unfold concat_joins.
  set (t := cd_table _ _).
  assert (before_up t = 49%nat) as -> by (vm_compute; reflexivity).
  let t' := eval vm_compute in t in
    change (Forall (λ r, is_concat r = true →
               ∃ i j e u, r_inputs r = [i; j] ∧ t !! i = Some e ∧ t !! j = Some u ∧
                          (i < 49)%nat ∧ is_up u = true ∧
                          spatial e = spatial u ∧ spatial r = spatial u) t').
  each_row ltac:(intros Hp;
    first [discriminate Hp
          | eexists _, _, _, _; split; [reflexivity|];
            split; [vm_compute; reflexivity|]; split; [vm_compute; reflexivity|];
            split; [lia|]; by repeat split]).
Qed.

Lemma cd_sizes (h w C : positive) :
  let t := cd_table (16 * h, 16 * w, C) (cd_shapes h w C) in
  downsampling_sizes t
  = [(16 * h, 16 * w); (8 * h, 8 * w); (4 * h, 4 * w); (2 * h, 2 * w); (h, w)]
  ∧ concat_sizes t = [(2 * h, 2 * w); (4 * h, 4 * w); (8 * h, 8 * w); (16 * h, 16 * w)].
Proof.
  split; vm_compute; reflexivity.
Qed.

(** Inputs whose height and width are multiples of 16 give a network. *)
Lemma cell_detector_built {V : Type} (num : numerics V) (h wd C : positive) (w : world) :
  ∃ m w',
    interp (keras num) (cell_detector (16 * h, 16 * wd, C)) w = Ok (m, w')
    ∧ table m = cd_table (16 * h, 16 * wd, C) (cd_shapes h wd C)
    ∧ t_shape (m_input m) = Shape None (16 * h) (16 * wd) C
    ∧ t_shape (m_output m) = Shape None (16 * h) (16 * wd) 1
    ∧ t_id (m_output m) = (t_id (m_input m) + 89)%nat.
Proof.
  destruct (interp (keras num) (cell_detector (16 * h, 16 * wd, C)) w)
    as [[m w']|e] eqn:Hrun.
  - exists m, w'. split; [done|].
    pose proof Hrun as Hm. rewrite cell_detector_run in Hm.
    destruct (shape_run cd_body _ _) as [new|]; [|done]. injection Hm as Hm _.
    apply cell_detector_ok in Hrun as (h' & wd' & C' & Hshp & Ht & Hi & Ho).
    injection Hshp as Hh Hw <-.
    assert (h' = h) as -> by lia. assert (wd' = wd) as -> by lia.
    split; [done|]. split; [done|]. split; [done|]. by subst m.
  - exfalso. rewrite cell_detector_run in Hrun.
    pose proof (cd_shape_run (16 * h) (16 * wd) C) as Hs.
    change (input_shape_of (16 * h, 16 * wd, C))
      with (Shape None (16 * h) (16 * wd) C) in Hrun.
    destruct (shape_run cd_body _ _) as [new|e']; [done|].
    destruct Hs as [_ Hs]. apply Hs. split; [exists h | exists wd]; lia.
Qed.

(** C2. With the default [input_shape=(128, 128, 3)], in every state of the
    framework, [cell_detector] returns a model whose input has the shape
    (None, 128, 128, 3) and whose output, the tensor of the final 3x3
    'same' convolution with one filter, has the shape (None, 128, 128, 1). *)
Theorem cell_detector_default_output {V : Type} (num : numerics V) (w : world) :
  ∃ m w',
    interp (keras num) (cell_detector default_input_shape) w = Ok (m, w')
    ∧ t_shape (m_input m) = Shape None 128 128 3
    ∧ t_shape (m_output m) = Shape None 128 128 1
    ∧ (t_id (m_output m) - t_id (m_input m))%nat = 89%nat
    ∧ table m !! 89%nat
      = Some (Row (OpLayer (LConv2D 1 (3, 3) (1, 1) same None)) [88%nat]
                  (Shape None 128 128 1))
    ∧ length (table m) = 90%nat.
Proof.
  destruct (cell_detector_built num 8 8 3 w) as (m & w' & Hrun & Ht & Hi & Ho & Hid).
  exists m, w'. split; [exact Hrun|]. split; [exact Hi|]. split; [exact Ho|].
  split; [lia|]. rewrite Ht. split; vm_compute; reflexivity.
Qed.

(** C3. In every network [cell_detector] builds, each 2x2 average pooling
    halves height and width of its input, each 2x2 upsampling doubles them,
    and each concatenation joins a tensor of the downsampling path with the
    upsampling just made, both of one spatial size.  For an input of
    16h x 16w the sizes are 16h x 16w, 8h x 8w, 4h x 4w, 2h x 2w, h x w on
    the way down and 2h x 2w, 4h x 4w, 8h x 8w, 16h x 16w at the four
    concatenations; for the default input these are 128, 64, 32, 16, 8 and
    16, 32, 64, 128. *)
Theorem cell_detector_resolutions {V : Type} (num : numerics V) (w : world) :
  (∀ input_shape : shape3,
     match interp (keras num) (cell_detector input_shape) w with
     | Ok (m, _) =>
         pool_halves (table m) ∧ up_doubles (table m) ∧ concat_joins (table m)
         ∧ ∃ h wd C, input_shape = (16 * h, 16 * wd, C)
             ∧ downsampling_sizes (table m)
               = [(16 * h, 16 * wd); (8 * h, 8 * wd); (4 * h, 4 * wd); (2 * h, 2 * wd);
                  (h, wd)]
             ∧ concat_sizes (table m)
               = [(2 * h, 2 * wd); (4 * h, 4 * wd); (8 * h, 8 * wd); (16 * h, 16 * wd)]
     | Raise e => is_shape_error e = true
     end)
  ∧ ∃ m w',
      interp (keras num) (cell_detector default_input_shape) w = Ok (m, w')
      ∧ downsampling_sizes (table m)
        = [(128, 128); (64, 64); (32, 32); (16, 16); (8, 8)]
      ∧ concat_sizes (table m) = [(16, 16); (32, 32); (64, 64); (128, 128)].
Proof.
  assert (∀ shp m w', interp (keras num) (cell_detector shp) w = Ok (m, w') →
            pool_halves (table m) ∧ up_doubles (table m) ∧ concat_joins (table m)
            ∧ ∃ h wd C, shp = (16 * h, 16 * wd, C)
                ∧ downsampling_sizes (table m)
                  = [(16 * h, 16 * wd); (8 * h, 8 * wd); (4 * h, 4 * wd);
                     (2 * h, 2 * wd); (h, wd)]
                ∧ concat_sizes (table m)
                  = [(2 * h, 2 * wd); (4 * h, 4 * wd); (8 * h, 8 * wd);
                     (16 * h, 16 * wd)]) as Hok.
  { intros shp m w' Hrun.
    apply cell_detector_ok in Hrun as (h & wd & C & -> & -> & _).
    split; [apply cd_pool_halves|]. split; [apply cd_up_doubles|].
    split; [apply cd_concat_joins|]. exists h, wd, C. split; [done|].
    apply cd_sizes. }
  split.
  - intros shp.
    destruct (interp (keras num) (cell_detector shp) w) as [[m w']|e] eqn:Hrun.
    + by eapply Hok.
    + apply cell_detector_raise in Hrun.
      by destruct e as [[]| [] | | | | | | | | | |].
  - destruct (cell_detector_built num 8 8 3 w) as (m & w' & Hrun & Ht & _).
    exists m, w'. split; [exact Hrun|]. rewrite Ht. apply (cd_sizes 8 8 3).
Qed.

(** ** Claims about the topology *)

(** C4. Every network [cell_detector] builds is one model of 90 layers in
    which [residual_block] is instantiated exactly nine times, with the
    stages 1 to 9 in this order: each of the nine call sites holds the
    eight layers of the block with the names res_<stage>_branch_2_a and
    2_b, and the table has nine additions and eighteen ELUs, those of the
    blocks.  The blocks of the stages 1 to 5 come before the first
    upsampling, those of the stages 6 to 9 after it.  The four
    concatenations take, in this order, the outputs of the blocks of the
    stages 4, 3, 2, 1 and, as second input, the upsampling of the output
    of the blocks of the stages 5, 6, 7, 8. *)
Theorem cell_detector_nine_blocks {V : Type} (num : numerics V)
    (input_shape : shape3) (w : world) :
  match interp (keras num) (cell_detector input_shape) w with
  | Ok (m, _) =>
      let t := table m in
      length t = 90%nat
      ∧ length cd_calls = 9%nat
      ∧ cs_stage <$> cd_calls = [1; 2; 3; 4; 5; 6; 7; 8; 9]%Z
      ∧ Forall (block_at t) cd_calls
      ∧ length (List.filter is_add t) = 9%nat
      ∧ length (List.filter is_elu t) = 18%nat
      ∧ conv_names t
        = mjoin ((λ cs, ["res_" +:+ pretty (cs_stage cs) +:+ "_branch_2_a";
                         "res_" +:+ pretty (cs_stage cs) +:+ "_branch_2_b"])
                 <$> cd_calls)
      ∧ Forall (λ cs, (cs_output cs < before_up t)%nat) (take 5 cd_calls)
      ∧ Forall (λ cs, (before_up t < cs_start cs)%nat) (drop 5 cd_calls)
      ∧ skips t
        = zip_with (λ e u, [cs_output e; u]) (reverse (take 4 cd_calls))
                   (fst <$> ups t)
      ∧ ups t
        = zip_with (λ d u, (u, [cs_output d])) (take 4 (drop 4 cd_calls))
                   [49; 59; 69; 79]%nat
  | Raise e => is_shape_error e = true
  end.
Proof.
  destruct (interp (keras num) (cell_detector input_shape) w) as [[m w']|e] eqn:Hrun.
  - apply cell_detector_ok in Hrun as (h & wd & C & -> & Ht & _).
    cbv zeta. rewrite Ht.
    split; [vm_compute; reflexivity|]. split; [reflexivity|].
    split; [reflexivity|]. split; [apply cd_blocks|].
    split; [vm_compute; reflexivity|]. split; [vm_compute; reflexivity|].
    split; [vm_compute; reflexivity|].
    assert (before_up (cd_table (16 * h, 16 * wd, C) (cd_shapes h wd C)) = 49%nat)
      as -> by (vm_compute; reflexivity).
    split.
    { let l := eval vm_compute in (take 5 cd_calls) in change (take 5 cd_calls) with l.
      repeat (apply List.Forall_cons; [vm_compute; lia|]). apply List.Forall_nil. }
    split.
    { let l := eval vm_compute in (drop 5 cd_calls) in change (drop 5 cd_calls) with l.
      repeat (apply List.Forall_cons; [vm_compute; lia|]). apply List.Forall_nil. }
    split; vm_compute; reflexivity.
  - apply cell_detector_raise in Hrun.
    by destruct e as [[]| [] | | | | | | | | | |].
Qed.

(** ** The calls the programs make *)

Lemma calls_only_bind {H A B} (P : ∀ B, call H B → Prop) (p : prog H A)
    (f : A → prog H B) :
  calls_only P p → (∀ a, calls_only P (f a)) → calls_only P (p ≫= f).
Proof.
  intros Hp Hf. induction Hp as [a | C c k Hc Hk IH]; simpl; [apply Hf|].
  apply calls_only_do; [done|]. intros b. apply IH.
Qed.

Lemma calls_only_perform {H B} (P : ∀ B, call H B → Prop) (c : call H B) :
  P B c → calls_only P (perform c).
Proof. intros Hc. apply calls_only_do; [done|]. intros b. apply calls_only_ret. Qed.

Lemma calls_only_weaken {H A} (P Q : ∀ B, call H B → Prop) (p : prog H A) :
  (∀ B c, P B c → Q B c) → calls_only P p → calls_only Q p.
Proof.
  intros HPQ Hp. induction Hp as [a | C c k Hc Hk IH]; [apply calls_only_ret|].
  apply calls_only_do; [by apply HPQ | done].
Qed.

Lemma compile_declares {H} (c : list instr) (d : tensor H) (env : list (tensor H)) :
  calls_only is_declaration (compile c d env).
Proof.
  revert env. induction c as [|i c IH]; intros env; [apply calls_only_ret|].
  cbn [compile]. apply calls_only_bind; [by apply calls_only_perform|].
  intros x. apply IH.
Qed.

Lemma residual_block_declares {H} (X : tensor H) (filters : positive * positive)
    (channels : positive) (stage : Z) :
  calls_only is_declaration (residual_block X filters channels stage).
Proof.
  destruct filters as [F1 F2]. unfold residual_block.
  repeat (apply calls_only_bind; [by apply calls_only_perform | intros ?]).
  apply calls_only_ret.
Qed.

Lemma cell_detector_declares {H} (shp : shape3) :
  calls_only (@is_declaration H) (cell_detector shp).
Proof.
  rewrite cell_detector_reified.
  apply calls_only_bind; [by apply calls_only_perform | intros x0].
  apply calls_only_bind; [apply compile_declares | intros env].
  apply calls_only_bind; [by apply calls_only_perform | intros m].
  apply calls_only_ret.
Qed.

(** C9. [cell_detector] makes no framework call other than applying a
    layer and constructing the model, whatever the framework answers; in
    Keras a successful call leaves session, initialised variables, random
    state and standard output as they were and only appends its 90 nodes to
    the graph.  Executing the module under another name than __main__ makes
    no call at all; under __main__ it runs the smoke test. *)
Theorem cell_detector_only_declares :
  (∀ (H : handles) (input_shape : shape3),
     calls_only (@is_declaration H) (cell_detector input_shape))
  ∧ (∀ {V : Type} (num : numerics V) (input_shape : shape3) (w w' : world) (m : kmodel),
       interp (keras num) (cell_detector input_shape) w = Ok (m, w') →
       session w' = session w ∧ initialized w' = initialized w ∧ rng w' = rng w
       ∧ stdout w' = stdout w ∧ graph w `prefix_of` graph w'
       ∧ length (graph w') = (length (graph w) + 90)%nat
       ∧ m_name m = "CellDetector")
  ∧ (∀ (H : handles) (name : string),
       name ≠ "__main__" → module_body (H:=H) name = mret tt)
  ∧ (∀ H : handles, module_body (H:=H) "__main__" = main).
Proof.
  split; [intros; apply cell_detector_declares|].
  split; [|split].
  - intros V num shp w w' m. rewrite cell_detector_run.
    destruct (shape_run cd_body _ _) as [new|]; [|done].
    intros [= <- <-]. unfold cd_world. cbn [session initialized rng stdout graph m_name cd_model].
    do 4 (split; [reflexivity|]). split; [by eexists|]. split; [|reflexivity].
    rewrite length_app, length_fmap. f_equal.
  - intros H name Hn. unfold module_body. by destruct (decide _).
  - intros H. reflexivity.
Qed.

Lemma declaration_silent {H} (B : Type) (c : call H B) :
  is_declaration B c → silent B c.
Proof. by destruct c. Qed.

(** ** The smoke test *)

Lemma observed_silent {H S E A} (h : handler H S E) (p : prog H A) (s s' : S)
    (log log' : list (event H)) (a : A) :
  calls_only silent p →
  interp (observed h) p (s, log) = Ok (a, (s', log')) → log' = log.
Proof.
  intros Hp. revert s log. induction Hp as [a' | B c k Hc Hk IH]; intros s log; simpl.
  - by intros [= _ _ <-].
  - unfold observed at 1. cbn [fst snd].
    destruct (h B c s) as [[b s1]|]; [|done].
    rewrite Hc. cbn [option_list]. rewrite app_nil_r. apply IH.
Qed.

Lemma observed_bind_silent {H S E A B} (h : handler H S E) (p : prog H A)
    (k : A → prog H B) (s : S) (log : list (event H)) r :
  calls_only silent p →
  interp (observed h) (p ≫= k) (s, log) = Ok r →
  ∃ a s1, interp (observed h) (k a) (s1, log) = Ok r.
Proof.
  intros Hp. rewrite interp_bind.
  destruct (interp (observed h) p (s, log)) as [[a [s1 l1]]|] eqn:Hrun; [|done].
  apply observed_silent in Hrun as ->; [|done]. eauto.
Qed.

Lemma observed_bind_event {H S E A B} (h : handler H S E) (c : call H A)
    (k : A → prog H B) (s : S) (log : list (event H)) r :
  interp (observed h) (perform c ≫= k) (s, log) = Ok r →
  ∃ a s1, interp (observed h) (k a) (s1, log ++ option_list (event_of c a))%list = Ok r.
Proof.
  rewrite interp_bind, interp_perform. unfold observed at 1. cbn [fst snd].
  destruct (h A c s) as [[a s1]|]; [|done]. eauto.
Qed.

Lemma observed_faithful {H S E A} (h : handler H S E) (p : prog H A) (s s' : S)
    (a : A) (log : list (event H)) :
  interp h p s = Ok (a, s') →
  ∃ log', interp (observed h) p (s, log) = Ok (a, (s', log')).
Proof.
  revert s log. induction p as [a' | B c k IH]; intros s log; simpl.
  - intros [= <- <-]. eauto.
  - unfold observed at 1. cbn [fst snd].
    destruct (h B c s) as [[b s1]|]; [|done]. apply IH.
Qed.

Lemma str_out_silent {H} (out : list (ndarray H)) :
  calls_only silent (str_out_0_1_1_0 out).
Proof.
  unfold str_out_0_1_1_0.
  repeat (apply calls_only_bind; [by apply calls_only_perform | intros ?]).
  by apply calls_only_perform.
Qed.

Ltac silent_call :=
  first
    [ apply calls_only_perform; intros ?; reflexivity
    | apply str_out_silent
    | apply (calls_only_weaken is_declaration);
      [ apply declaration_silent
      | first [apply residual_block_declares | apply cell_detector_declares] ] ].

Ltac run_silent H :=
  repeat (apply observed_bind_silent in H as (? & ? & H); [|silent_call]).

Ltac run_event H :=
  apply observed_bind_event in H as (? & ? & H);
  cbn [event_of option_list] in H.

Lemma test_residual_block_events {H S E} (h : handler H S E) (s s' : S)
    (log log' : list (event H)) (u : unit) :
  interp (observed h) test_residual_block (s, log) = Ok (u, (s', log')) →
  ∃ run x, is_fetch run = true
           ∧ log' = (log ++ test_events "Testing residual block:" run x)%list.
Proof.
  unfold test_residual_block. intros Hrun.
  run_event Hrun. run_silent Hrun. run_event Hrun. run_silent Hrun.
  run_event Hrun. run_event Hrun.
  apply observed_silent in Hrun as ->; [|silent_call].
  eexists _, _. split; [|by rewrite <-!app_assoc]. done.
Qed.

Lemma test_cell_detector_events {H S E} (h : handler H S E) (s s' : S)
    (log log' : list (event H)) (u : unit) :
  interp (observed h) test_cell_detector (s, log) = Ok (u, (s', log')) →
  ∃ run x, is_fetch run = true
           ∧ log' = (log ++ test_events "Testing cell detector:" run x)%list.
Proof.
  unfold test_cell_detector. intros Hrun.
  run_event Hrun. run_silent Hrun. run_event Hrun. run_silent Hrun.
  run_event Hrun. run_event Hrun.
  apply observed_silent in Hrun as ->; [|silent_call].
  eexists _, _. split; [|by rewrite <-!app_assoc]. done.
Qed.

Lemma main_events {H S E} (h : handler H S E) (s s' : S) (u : unit) :
  interp h main s = Ok (u, s') →
  ∃ run1 x1 run2 x2,
    is_fetch run1 = true ∧ is_fetch run2 = true ∧
    interp (observed h) main (s, []) =
    Ok (u, (s', (test_events "Testing residual block:" run1 x1
                 ++ test_events "Testing cell detector:" run2 x2)%list)).
Proof.
  intros Hrun. apply (observed_faithful h main s s' u []) in Hrun as [log Hrun].
  pose proof Hrun as Hlog. unfold main in Hlog. rewrite interp_bind in Hlog.
  destruct (interp (observed h) test_residual_block (s, [])) as [[[] [s1 l1]]|] eqn:H1;
    [|done].
  apply test_residual_block_events in H1 as (run1 & x1 & Hf1 & ->).
  apply test_cell_detector_events in Hlog as (run2 & x2 & Hf2 & ->).
  exists run1, x1, run2, x2. by rewrite Hrun.
Qed.

(** C5. Run as __main__ on Keras, whatever the layers compute, the module
    ends without an exception: it feeds an array of shape [5, 128, 128, 3]
    to the residual block with [filters=[3, 3]] and [channels=3] and fetches
    an array of shape [5, 128, 128, 3], then feeds such an array to the cell
    detector and fetches an array of shape [5, 128, 128, 1], and prints the
    six lines, PASSED twice.  Nothing is checked about the values: on any
    framework, a run of the smoke test that raises no exception has printed
    both PASSED lines, each after its forward pass. *)
Theorem smoke_test_passes :
  (∀ {V : Type} (num : numerics V),
     ∃ w' P1 X1 A1 v1 s1 P2 X2 A2 v2 s2,
       interp (observed (keras num)) (module_body "__main__") (fresh_world, [])
       = Ok (tt, (w',
                  (test_events "Testing residual block:"
                     (Fetched (H:=KH V) [A1] [(P1, X1)] 0 [NDArray [5; 128; 128; 3] v1]) s1
                   ++ test_events "Testing cell detector:"
                        (Fetched (H:=KH V) [A2] [(P2, X2)] 0 [NDArray [5; 128; 128; 1] v2])
                        s2)%list))
       ∧ a_dims X1 = [5; 128; 128; 3] ∧ a_dims X2 = [5; 128; 128; 3]
       ∧ stdout w'
         = [nl +:+ "Testing residual block:"; "out = " +:+ s1;
            "Test complete: PASSED" +:+ nl;
            nl +:+ "Testing cell detector:"; "out = " +:+ s2;
            "Test complete: PASSED" +:+ nl])
  ∧ (∀ {H S E} (h : handler H S E) (s s' : S) (u : unit),
       interp h (module_body "__main__") s = Ok (u, s') →
       ∃ run1 x1 run2 x2,
         is_fetch run1 = true ∧ is_fetch run2 = true ∧
         interp (observed h) (module_body "__main__") (s, [])
         = Ok (u, (s', (test_events "Testing residual block:" run1 x1
                        ++ test_events "Testing cell detector:" run2 x2)%list))).
Proof.
  split.
  - intros V num. eexists _, _, _, _, _, _, _, _, _, _, _.
    split; [vm_compute; reflexivity|].
    split; [reflexivity|]. split; [reflexivity|]. vm_compute. reflexivity.
  - intros H S E h s s' u. apply main_events.
Qed.

(** ** The forward pass *)

Section ForwardPass.
Context {V : Type} (num : numerics V).
Context (init : nat) (training : bool) (feed : list (nat * karray V)).

Lemma forward_snoc (g : list node) (n : node) :
  forward num init training feed (g ++ [n])
    = (forward num init training feed g ++ [node_value num init training feed (forward num init training feed g) (length (forward num init training feed g)) n])%list.
Proof. unfold forward. by rewrite fold_left_app. Qed.

Lemma forward_length (g : list node) : length (forward num init training feed g) = length g.
Proof.
  induction g as [|n g IH] using rev_ind; [done|].
  rewrite forward_snoc, !length_app, IH. done.
Qed.

Lemma forward_prefix (g g' : list node) (j : nat) :
  (j < length g)%nat → forward num init training feed (g ++ g') !! j
    = forward num init training feed g !! j.
Proof.
  intros Hj. induction g' as [|n g' IH] using rev_ind; [by rewrite app_nil_r|].
  rewrite app_assoc, forward_snoc, lookup_app_l; [done|].
  rewrite forward_length, length_app. lia.
Qed.

Lemma forward_take (g : list node) (i j : nat) :
  (j < i)%nat → (i ≤ length g)%nat → forward num init training feed (take i g) !! j
    = forward num init training feed g !! j.
Proof.
  intros Hj Hi. rewrite <-(take_drop i g) at 2.
  rewrite forward_prefix; [done|]. rewrite length_take. lia.
Qed.

Lemma forward_node (g : list node) (i : nat) (n : node) :
  g !! i = Some n →
  forward num init training feed g !! i
    = Some (node_value num init training feed (forward num init training feed (take i g)) i n).
Proof.
  intros Hn. pose proof (lookup_lt_Some _ _ _ Hn) as Hi.
  rewrite <-(take_drop_middle g i n Hn) at 1.
  change (n :: drop (S i) g) with ([n] ++ drop (S i) g)%list.
  rewrite app_assoc, forward_prefix by (rewrite length_app, length_take; simpl; lia).
  rewrite forward_snoc, lookup_app_r by (rewrite forward_length, length_take; lia).
  rewrite !forward_length, length_take.
  replace (i `min` length g)%nat with i by lia.
  by rewrite Nat.sub_diag.
Qed.

(** The value of a layer with one input. *)
Lemma forward_unary (g : list node) (i j : nat) (l : layer) (name : string)
    (s : shape) (b h wd c b' h' wd' c' : positive) (v v' : V) :
  g !! i = Some (Node (OpLayer l) name [j] s) →
  (j < i)%nat →
  afeed i feed = None →
  is_input_node (Node (OpLayer l) name [j] s) = false →
  (has_weights l && (init <=? i)%nat) = false →
  forward num init training feed g !! j = Some (Ok (NDArray [b; h; wd; c] v)) →
  infer_shape l [Shape (Some b) h wd c] = Ok (Shape (Some b') h' wd' c') →
  layer_sem num l name training [v] = Some v' →
  forward num init training feed g !! i = Some (Ok (NDArray [b'; h'; wd'; c'] v')).
Proof.
  intros Hn Hj Hfeed Hin Hw Hv Hs Hsem.
  pose proof (lookup_lt_Some _ _ _ Hn) as Hi.
  rewrite (forward_node g i _ Hn). f_equal.
  unfold node_value. rewrite Hfeed. cbn [n_op n_inputs n_name n_shape].
  rewrite Hin. cbn [input_values].
  rewrite forward_take, Hv by lia.
  rewrite Hw. cbn [fmap list_fmap a_dims a_val mapM shape_of_dims mbind option_bind mret option_ret].
  rewrite Hs. cbn [dims_of_shape batch height width chans]. by rewrite Hsem.
Qed.

(** The value of a layer with two inputs. *)
Lemma forward_binary (g : list node) (i j1 j2 : nat) (l : layer) (name : string)
    (s : shape) (b1 h1 wd1 c1 b2 h2 wd2 c2 b' h' wd' c' : positive) (v1 v2 v' : V) :
  g !! i = Some (Node (OpLayer l) name [j1; j2] s) →
  (j1 < i)%nat → (j2 < i)%nat →
  afeed i feed = None →
  is_input_node (Node (OpLayer l) name [j1; j2] s) = false →
  (has_weights l && (init <=? i)%nat) = false →
  forward num init training feed g !! j1 = Some (Ok (NDArray [b1; h1; wd1; c1] v1)) →
  forward num init training feed g !! j2 = Some (Ok (NDArray [b2; h2; wd2; c2] v2)) →
  infer_shape l [Shape (Some b1) h1 wd1 c1; Shape (Some b2) h2 wd2 c2]
  = Ok (Shape (Some b') h' wd' c') →
  layer_sem num l name training [v1; v2] = Some v' →
  forward num init training feed g !! i = Some (Ok (NDArray [b'; h'; wd'; c'] v')).
Proof.
  intros Hn Hj1 Hj2 Hfeed Hin Hw Hv1 Hv2 Hs Hsem.
  pose proof (lookup_lt_Some _ _ _ Hn) as Hi.
  rewrite (forward_node g i _ Hn). f_equal.
  unfold node_value. rewrite Hfeed. cbn [n_op n_inputs n_name n_shape].
  rewrite Hin. cbn [input_values].
  rewrite !forward_take by lia. rewrite Hv1, Hv2.
  rewrite Hw. cbn [fmap list_fmap a_dims a_val mapM shape_of_dims mbind option_bind mret option_ret].
  rewrite Hs. cbn [dims_of_shape batch height width chans]. by rewrite Hsem.
Qed.
End ForwardPass.

Lemma feed_ok_dims (s : shape) (dims : list positive) :
  feed_ok s dims = true →
  ∃ b, dims = [b; height s; width s; chans s].
Proof.
  destruct dims as [|b [|h [|wd [|c [|? ?]]]]]; try done.
  unfold feed_ok. rewrite !andb_true_iff, !Pos.eqb_eq.
  intros [[[_ ->] ->] ->]. eauto.
Qed.

Section BlockValue.
Context {V : Type} (num : numerics V).

(** C1 (as amended).  Let [residual_block(X, [F1, F2], channels, stage)]
    have succeeded, and run the graph with a value [x] for X whose shape
    fits, all variables initialised and none of the block's tensors fed.
    The value of the tensor the block returns is the final 1x1 convolution
    with [channels] filters applied to F(x) scaled by 0.3 plus x, where F is
    ELU - Conv 3x3 - Dropout - ELU - Conv 3x3 with the convolutions
    res_<stage>_branch_2_a and 2_b; its shape is that of x with [channels]
    channels. *)
Theorem residual_block_computes (X A : ktensor) (F1 F2 channels : positive)
    (stage : Z) (w w' : world) (init : nat) (training : bool)
    (feed : list (nat * karray V)) (dims : list positive) (x : V) :
  interp (keras num) (residual_block (H:=KH V) X (F1, F2) channels stage) w
  = Ok (A, w') →
  forward num init training feed (graph w) !! t_id X = Some (Ok (NDArray dims x)) →
  feed_ok (t_shape X) dims = true →
  (length (graph w') ≤ init)%nat →
  (∀ i, (length (graph w) ≤ i)%nat → afeed i feed = None) →
  let conv_base_name := "res_" +:+ pretty stage +:+ "_branch_" in
  let na := conv_base_name +:+ "2_a" in
  let nb := conv_base_name +:+ "2_b" in
  let la := LConv2D F1 (3, 3) (1, 1) same (Some na) in
  let lb := LConv2D F2 (3, 3) (1, 1) same (Some nb) in
  let lc := LConv2D channels (1, 1) (1, 1) valid None in
  ∃ b name,
    dims = [b; height (t_shape X); width (t_shape X); chans (t_shape X)]
    ∧ forward num init training feed (graph w') !! t_id A
      = Some (Ok (NDArray [b; height (t_shape X); width (t_shape X); channels]
                          (vconv num lc name
                                 (scaled_sum num la na lb nb training x)))).
Proof.
  intros Hrun Hx Hdims Hinit Hfeed conv_base_name na nb la lb lc.
  rewrite residual_block_run in Hrun.
  destruct (broadcast_dim F2 (chans (t_shape X))) as [c|] eqn:Hc; [|done].
  injection Hrun as <- <-.
  apply feed_ok_dims in Hdims as [b ->]. exists b.
  destruct X as [ix [bx hx wx cx]]. cbn [t_shape t_id height width chans] in *.
  assert (ix < length (graph w))%nat as Hix.
  { apply lookup_lt_Some in Hx. by rewrite forward_length in Hx. }
  unfold block_world in *. cbn [graph] in *.
  set (b0 := length (graph w)) in *.
  set (nodes := block_nodes _ _ _ _ _ _ _ _) in *.
  set (g := (graph w ++ nodes)%list) in *.
  assert (length nodes = 8%nat) as Hlen by reflexivity.
  assert (∀ k, (k < 8)%nat → g !! (b0 + k)%nat = nodes !! k) as Hnode.
  { intros k Hk. unfold g. rewrite lookup_app_r by (unfold b0; lia).
    f_equal. unfold b0. lia. }
  assert (∀ k l, (k < 8)%nat → (has_weights l && (init <=? b0 + k)%nat) = false) as Hw.
  { intros k l Hk. rewrite (proj2 (Nat.leb_gt init (b0 + k))); [apply andb_false_r|].
    unfold g in Hinit. rewrite length_app, Hlen in Hinit. unfold b0. lia. }
  assert (forward num init training feed g !! ix = Some (Ok (NDArray [b; hx; wx; cx] x)))
    as H0.
  { unfold g. by rewrite forward_prefix. }
  assert (forward num init training feed g !! (b0 + 0)%nat
          = Some (Ok (NDArray [b; hx; wx; cx] (velu num x)))) as H1.
  { eapply forward_unary;
      [rewrite Hnode by lia; reflexivity | cbn; lia | apply Hfeed; lia | reflexivity
      | apply Hw; lia | exact H0 | reflexivity | reflexivity]. }
  assert (forward num init training feed g !! (b0 + 1)%nat
          = Some (Ok (NDArray [b; hx; wx; F1] (vconv num la na (velu num x))))) as H2.
  { eapply forward_unary;
      [rewrite Hnode by lia; reflexivity | cbn; lia | apply Hfeed; lia | reflexivity
      | apply Hw; lia | rewrite <-(Nat.add_0_r b0); exact H1
      | exact (infer_same _ _ _ (Shape (Some b) hx wx cx)) | reflexivity]. }
  set (v3 := if training then vdropout num dropout_rate (vconv num la na (velu num x))
             else vconv num la na (velu num x)).
  assert (forward num init training feed g !! (b0 + 2)%nat
          = Some (Ok (NDArray [b; hx; wx; F1] v3))) as H3.
  { eapply forward_unary;
      [rewrite Hnode by lia; reflexivity | cbn; lia | apply Hfeed; lia | reflexivity
      | apply Hw; lia | exact H2 | reflexivity | reflexivity]. }
  assert (forward num init training feed g !! (b0 + 3)%nat
          = Some (Ok (NDArray [b; hx; wx; F1] (velu num v3)))) as H4.
  { eapply forward_unary;
      [rewrite Hnode by lia; reflexivity | cbn; lia | apply Hfeed; lia | reflexivity
      | apply Hw; lia | exact H3 | reflexivity | reflexivity]. }
  assert (forward num init training feed g !! (b0 + 4)%nat
          = Some (Ok (NDArray [b; hx; wx; F2]
                        (residual_branch num la na lb nb training x)))) as H5.
  { eapply forward_unary;
      [rewrite Hnode by lia; reflexivity | cbn; lia | apply Hfeed; lia | reflexivity
      | apply Hw; lia | exact H4
      | exact (infer_same _ _ _ (Shape (Some b) hx wx F1)) | reflexivity]. }
  assert (forward num init training feed g !! (b0 + 5)%nat
          = Some (Ok (NDArray [b; hx; wx; F2]
                        (vscale num scaling_factor
                           (residual_branch num la na lb nb training x))))) as H6.
  { eapply forward_unary;
      [rewrite Hnode by lia; reflexivity | cbn; lia | apply Hfeed; lia | reflexivity
      | apply Hw; lia | exact H5 | reflexivity | reflexivity]. }
  assert (forward num init training feed g !! (b0 + 6)%nat
          = Some (Ok (NDArray [b; hx; wx; c]
                        (scaled_sum num la na lb nb training x)))) as H7.
  { eapply forward_binary;
      [rewrite Hnode by lia; reflexivity | cbn; lia | cbn; lia | apply Hfeed; lia | reflexivity
      | apply Hw; lia | exact H6 | exact H0 | | reflexivity].
    etrans; [exact (infer_add_block F2 (Shape (Some b) hx wx cx))|].
    cbn [chans]. by rewrite Hc. }
  eexists. split; [reflexivity|].
  cbn [t_id].
  eapply forward_unary;
    [rewrite Hnode by lia; reflexivity | cbn; lia | apply Hfeed; lia | reflexivity
    | apply Hw; lia | exact H7
    | exact (infer_1x1 _ _ (Shape (Some b) hx wx c)) | reflexivity].
Qed.
End BlockValue.

Lemma residual_block_computes_witness :
  ∃ A w' b name,
    interp (keras scalar) (residual_block (H:=KH Q) one_pixel (1, 1) 1 1) one_pixel_world
    = Ok (A, w')
    ∧ forward scalar 9 false [(0%nat, NDArray [1; 1; 1; 1] 1%Q)] (graph w') !! t_id A
      = Some (Ok (NDArray [b; 1; 1; 1]
                    (vconv scalar (LConv2D 1 (1, 1) (1, 1) valid None) name
                       (scaled_sum scalar
                          (LConv2D 1 (3, 3) (1, 1) same (Some "res_1_branch_2_a"))
                          "res_1_branch_2_a"
                          (LConv2D 1 (3, 3) (1, 1) same (Some "res_1_branch_2_b"))
                          "res_1_branch_2_b" false 1%Q)))).
Proof.
  exists (Tensor 8 (Shape (Some 1) 1 1 1)),
         (block_world one_pixel 1 1 1 1 1 one_pixel_world).
  assert (∀ i, (length (graph one_pixel_world) ≤ i)%nat →
               afeed i [(0%nat, NDArray [1; 1; 1; 1] 1%Q)] = None) as Hfeed.
  { intros [|i] Hi; [simpl in Hi; lia | reflexivity]. }
  assert (length (graph (block_world one_pixel 1 1 1 1 1 one_pixel_world)) ≤ 9)%nat
    as Hinit.
  { vm_compute. lia. }
  destruct (residual_block_computes scalar one_pixel (Tensor 8 (Shape (Some 1) 1 1 1))
              1 1 1 1 one_pixel_world
              (block_world one_pixel 1 1 1 1 1 one_pixel_world) 9 false
              [(0%nat, NDArray [1; 1; 1; 1] 1%Q)] [1; 1; 1; 1] 1%Q
              eq_refl eq_refl eq_refl Hinit Hfeed) as (b & name & Hd & Hv).
  exists b, name. split; [reflexivity|]. exact Hv.
Defined.

(** C1, as stated, fails: on one pixel with the input 1 and every
    convolution doubling its input, F(1) is 4 and 1 + 0.3 * F(1) is 11/5,
    and the block returns 22/5, the final 1x1 convolution of that sum. *)
Lemma residual_block_output_is_projected :
  ∃ w' v,
    interp (keras scalar) one_pixel_run fresh_world = Ok ([NDArray [1; 1; 1; 1] v], w')
    ∧ v = (22 # 5)%Q
    ∧ scaled_sum scalar
        (LConv2D 1 (3, 3) (1, 1) same (Some "res_1_branch_2_a")) "res_1_branch_2_a"
        (LConv2D 1 (3, 3) (1, 1) same (Some "res_1_branch_2_b")) "res_1_branch_2_b"
        false 1%Q = (11 # 5)%Q
    ∧ v ≠ scaled_sum scalar
        (LConv2D 1 (3, 3) (1, 1) same (Some "res_1_branch_2_a")) "res_1_branch_2_a"
        (LConv2D 1 (3, 3) (1, 1) same (Some "res_1_branch_2_b")) "res_1_branch_2_b"
        false 1%Q.
Proof.
  eexists _, _. split; [vm_compute; reflexivity|].
  split; [reflexivity|]. split; [vm_compute; reflexivity|].
  vm_compute. discriminate.
Qed.

(** * Further properties *)

(** ** The wiring around the fourth pooling *)

(** X1. In every network [cell_detector] builds, the first three poolings
    read the convolution that follows a residual block, and the fourth
    pooling reads the third pooling itself: the output of the block of
    stage 4 goes to the first concatenation and nowhere else, while the
    outputs of the blocks of the stages 1, 2, 3 go to the next convolution
    and to a concatenation. *)
Theorem fourth_pooling_skips_block_4 {V : Type} (num : numerics V)
    (input_shape : shape3) (w : world) :
  match interp (keras num) (cell_detector input_shape) w with
  | Ok (m, _) =>
      let t := table m in
      pools t = [(11, [10]); (21, [20]); (31, [30]); (40, [31])]%nat
      ∧ consumers t <$> (cs_output <$> cd_calls)
        = [[10; 80]; [20; 70]; [30; 60]; [50]; [49]; [59]; [69]; [79]; [89]]%nat
      ∧ consumers t 31 = [32; 38; 40]%nat
      ∧ wiring (take 1 (drop 10 t))
        = [(OpLayer (LConv2D 64 (3, 3) (1, 1) same None), [cs_output (CallSite 1 2 (32, 32) 32 1)])]
  | Raise e => is_shape_error e = true
  end.
Proof.
  destruct (interp (keras num) (cell_detector input_shape) w) as [[m w']|e] eqn:Hrun.
  - apply cell_detector_ok in Hrun as (h & wd & C & -> & Ht & _).
    cbv zeta. rewrite Ht. repeat split; vm_compute; reflexivity.
  - apply cell_detector_raise in Hrun.
    by destruct e as [[]| [] | | | | | | | | | |].
Qed.

(** ** Resolution *)

Lemma cd_rows_resolutions (h w C : positive) :
  Forall (λ r, batch (r_shape r) = None ∧ List.In (spatial r) (resolutions h w))
         (cd_table (16 * h, 16 * w, C) (cd_shapes h w C)).
Proof.
  set (t := cd_table _ _).
  let t' := eval vm_compute in t in
    change (Forall (λ r, batch (r_shape r) = None
                         ∧ List.In (spatial r) (resolutions h w)) t').
  each_row ltac:(split; [reflexivity|];
    first [ left; reflexivity | right; left; reflexivity
          | right; right; left; reflexivity
          | right; right; right; left; reflexivity
          | right; right; right; right; left; reflexivity ]).
Qed.


(** ** The graph of a residual block *)

(** X3. A successful [residual_block(X, [F1, F2], channels, stage)] appends
    exactly its eight layers to the graph, each reading the one before it,
    the addition reading also X itself (the shortcut is the identity); the
    shapes are those of X with F1, F1, F1, F2, F2 channels inside the
    branch; the tensor returned is the last of the eight; the session, the
    set of initialised variables and the output are untouched.  A call that
    fails fails at the addition. *)
Theorem residual_block_appends_eight {V : Type} (num : numerics V) (X : ktensor)
    (F1 F2 channels : positive) (stage : Z) (w : world) :
  match interp (keras num) (residual_block (H:=KH V) X (F1, F2) channels stage) w with
  | Ok (A, w') =>
      let b := length (graph w) in
      ∃ new c,
        graph w' = (graph w ++ new)%list
        ∧ n_op <$> new = OpLayer <$> block_layers F1 F2 channels stage
        ∧ n_inputs <$> new
          = [[t_id X]; [b]; [b + 1]; [b + 2]; [b + 3]; [b + 4]; [b + 5; t_id X];
             [b + 6]]%nat
        ∧ n_shape <$> new
          = (λ k, with_chans k (t_shape X))
            <$> [chans (t_shape X); F1; F1; F1; F2; F2; c; channels]
        ∧ broadcast_dim F2 (chans (t_shape X)) = Some c
        ∧ A = Tensor (b + 7) (with_chans channels (t_shape X))
        ∧ session w' = session w ∧ initialized w' = initialized w
        ∧ stdout w' = stdout w
  | Raise e => is_add_error e = true
  end.
Proof.
  rewrite residual_block_run.
  destruct (broadcast_dim F2 (chans (t_shape X))) as [c|] eqn:Hc; [|done].
  cbv zeta. eexists _, c. split; [reflexivity|].
  split; [reflexivity|]. split; [reflexivity|].
  split; [by destruct X as [? []]|]. done.
Qed.

(** X4. Two residual blocks in a row are built exactly when each addition
    is accepted: F2 of the first against the channels of X, and F2 of the
    second against [channels] of the first.  The result then has the batch
    and spatial sizes of X and [channels] of the second block, and sixteen
    layers were appended. *)
Theorem residual_blocks_chain {V : Type} (num : numerics V) (X : ktensor)
    (F1 F2 channels1 : positive) (stage1 : Z) (G1 G2 channels2 : positive)
    (stage2 : Z) (w : world) :
  let run := interp (keras num)
               (two_blocks (H:=KH V) X (F1, F2) channels1 stage1 (G1, G2) channels2 stage2)
               w in
  ((∃ B w', run = Ok (B, w'))
   ↔ (F2 = chans (t_shape X) ∨ F2 = 1 ∨ chans (t_shape X) = 1)
     ∧ (G2 = channels1 ∨ G2 = 1 ∨ channels1 = 1))
  ∧ (∀ B w', run = Ok (B, w') →
             B = Tensor (length (graph w) + 15) (with_chans channels2 (t_shape X))
             ∧ length (graph w') = (length (graph w) + 16)%nat)
  ∧ (∀ e, run = Raise e → is_add_error e = true).
Proof.
  cbv zeta. unfold two_blocks. rewrite interp_bind, residual_block_run.
  pose proof (broadcast_dim_is_Some F2 (chans (t_shape X))) as Hb1.
  pose proof (broadcast_dim_is_Some G2 channels1) as Hb2.
  destruct (broadcast_dim F2 (chans (t_shape X))) as [c1|] eqn:Hc1.
  - rewrite residual_block_run. cbn [t_shape with_chans chans].
    destruct (broadcast_dim G2 channels1) as [c2|] eqn:Hc2.
    + split; [split; [intros _; split; [apply Hb1 | apply Hb2]; eauto | eauto]|].
      split; [|done]. intros B w' [= <- <-]. split.
      * unfold block_world. cbn [graph t_id batch height width].
        rewrite length_app. cbn [length block_nodes]. f_equal. lia.
      * unfold block_world. cbn [graph]. rewrite !length_app. cbn [length block_nodes]. lia.
    + split; [split|split].
      * by intros (B & w' & ?).
      * intros [_ HG]. apply Hb2 in HG. by destruct HG.
      * done.
      * by intros e [= <-].
  - split; [split|split].
    + by intros (B & w' & ?).
    + intros [HF _]. apply Hb1 in HF. by destruct HF.
    + done.
    + by intros e [= <-].
Qed.

(** ** The element the smoke test prints *)

Lemma py_index_1 (d : positive) :
  py_index 1 (Z.pos d) = if (1 <? d)%positive then Some 1%Z else None.
Proof.
  unfold py_index. destruct (Pos.ltb_spec 1 d) as [Hd|Hd].
  - by destruct (Z.ltb_spec 1 (Z.pos d)) as [?|?]; [|lia].
  - destruct (Z.ltb_spec 1 (Z.pos d)) as [?|?]; [lia|]. cbn [andb].
    by destruct (- Z.pos d <=? 1)%Z.
Qed.

Lemma py_index_0 (d : positive) : py_index 0 (Z.pos d) = Some 0%Z.
Proof. reflexivity. Qed.

Lemma str_out_run {V : Type} (num : numerics V) (out : list (karray V)) (w : world) :
  interp (keras num) (str_out_0_1_1_0 (H:=KH V) out) w =
  match out with
  | [] => Raise (IndexError 0)
  | a :: _ =>
      match a_dims a with
      | [] => Raise (IndexError 1)
      | b :: ds =>
          if (1 <? b)%positive then
            match ds with
            | [] => Raise (IndexError 1)
            | h :: ds' =>
                if (1 <? h)%positive then
                  match ds' with
                  | [] => Raise (IndexError 0)
                  | _ :: _ =>
                      Ok (vstr num (vindex num (vindex num (vindex num (a_val a) 1) 1) 0),
                          w)
                  end
                else Raise (IndexError 1)
            end
          else Raise (IndexError 1)
      end
  end.
Proof.
  unfold str_out_0_1_1_0. rewrite interp_bind, interp_perform.
  destruct out as [|[dims v] rest]; [reflexivity|].
  change (keras num _ (Item (H:=KH V) (NDArray dims v :: rest) 0) w)
    with (Ok (E:=error) (NDArray dims v, w)).
  cbv beta iota.
  rewrite interp_bind, interp_perform. cbn [keras]. unfold index. cbn [a_dims a_val].
  destruct dims as [|b dims]; [reflexivity|].
  rewrite py_index_1. destruct (1 <? b)%positive; [|reflexivity].
  rewrite interp_bind, interp_perform. cbn [keras]. unfold index. cbn [a_dims a_val].
  destruct dims as [|h dims]; [reflexivity|].
  rewrite py_index_1. destruct (1 <? h)%positive; [|reflexivity].
  rewrite interp_bind, interp_perform. cbn [keras]. unfold index. cbn [a_dims a_val].
  destruct dims as [|wd dims]; [reflexivity|].
  rewrite py_index_0. rewrite interp_perform. reflexivity.
Qed.

(** X5. [str(out[0][1][1][0])] succeeds exactly when [out] is not empty and
    its first array has at least three axes, the first two of size at least
    2; the string is then that of the element at [1, 1, 0], and nothing in
    the framework changes.  Otherwise the expression raises an index error:
    the smoke test could not run with a batch of one image. *)
Theorem str_out_bounds {V : Type} (num : numerics V) (out : list (karray V))
    (w : world) :
  let run := interp (keras num) (str_out_0_1_1_0 (H:=KH V) out) w in
  ((∃ s w', run = Ok (s, w'))
   ↔ ∃ a rest b h wd ds,
       out = a :: rest ∧ a_dims a = b :: h :: wd :: ds ∧ (1 < b)%positive
       ∧ (1 < h)%positive)
  ∧ (∀ s w', run = Ok (s, w') →
       w' = w
       ∧ ∃ a rest,
           out = a :: rest
           ∧ s = vstr num (vindex num (vindex num (vindex num (a_val a) 1) 1) 0))
  ∧ (∀ e, run = Raise e → ∃ i, e = IndexError i).
Proof.
  intros run. assert (Hrun := str_out_run num out w). fold run in Hrun.
  clearbody run. subst run.
  destruct out as [|[dims v] rest]; cbn [a_dims a_val].
  { split; [split|split]; [by intros (? & ? & ?) | by intros (? & ? & ? & ? & ? & ? & ? & _)
                          | done | intros e [= <-]; eauto]. }
  destruct dims as [|b dims].
  { split; [split|split]; [by intros (? & ? & ?) | | done | intros e [= <-]; eauto].
    intros (? & ? & ? & ? & ? & ? & ? & ? & _). simplify_eq/=. }
  destruct (Pos.ltb_spec 1 b) as [Hb|Hb]; cycle 1.
  { split; [split|split]; [by intros (? & ? & ?) | | done | intros e [= <-]; eauto].
    intros (? & ? & ? & ? & ? & ? & ? & ? & ? & _). simplify_eq/=. lia. }
  destruct dims as [|h dims].
  { split; [split|split]; [by intros (? & ? & ?) | | done | intros e [= <-]; eauto].
    intros (? & ? & ? & ? & ? & ? & ? & ? & _). simplify_eq/=. }
  destruct (Pos.ltb_spec 1 h) as [Hh|Hh]; cycle 1.
  { split; [split|split]; [by intros (? & ? & ?) | | done | intros e [= <-]; eauto].
    intros (? & ? & ? & ? & ? & ? & ? & ? & _ & ?). simplify_eq/=. lia. }
  destruct dims as [|wd dims].
  { split; [split|split]; [by intros (? & ? & ?) | | done | intros e [= <-]; eauto].
    intros (? & ? & ? & ? & ? & ? & ? & ? & _). simplify_eq/=. }
  split; [split|split].
  - intros _. by eexists _, _, _, _, _, _.
  - eauto.
  - intros s w' [= <- <-]. split; [done|]. by eexists _, _.
  - done.
Qed.

(** ** The smoke test and the state it starts from *)

Lemma app_six {A} (l : list A) (a b c d e f : A) :
  ((((((l ++ [a]) ++ [b]) ++ [c]) ++ [d]) ++ [e]) ++ [f])%list
  = (l ++ [a; b; c; d; e; f])%list.
Proof. by rewrite <-!app_assoc. Qed.

Lemma main_run {V : Type} (num : numerics V) (u : gmap string nat) (g : list node)
    (ini : nat) (r : option N * nat) (so : list string) :
  interp (observed (keras num)) main (World u g false ini r so, [])
  = main_outcome num u g ini r so.
Proof. vm_compute. reflexivity. Qed.

Lemma main_in_session {V : Type} (num : numerics V) (u : gmap string nat)
    (g : list node) (ini : nat) (r : option N * nat) (so : list string) :
  interp (keras num) main (World u g true ini r so) = Raise NestedGraph.
Proof. reflexivity. Qed.


(** ** Dropout and the smoke test *)

Section Inference.
Context {V : Type} (num : numerics V) (d : Qc → V → V).

Lemma layer_sem_inference (l : layer) (name : string) (vs : list V) :
  layer_sem (with_dropout d num) l name false vs = layer_sem num l name false vs.
Proof. by destruct l. Qed.

Lemma node_value_inference (init : nat) (feed : list (nat * karray V))
    (vals : list (outcome error (karray V))) (i : nat) (n : node) :
  node_value (with_dropout d num) init false feed vals i n
  = node_value num init false feed vals i n.
Proof.
  unfold node_value. destruct (afeed i feed); [done|].
  destruct (n_op n) as [|l]; [done|]. destruct (is_input_node n); [done|].
  destruct (input_values vals (n_inputs n)) as [ins|]; [|done].
  destruct (has_weights l && _); [done|].
  destruct (mapM shape_of_dims _); [|done].
  destruct (infer_shape l _); [|done]. by rewrite layer_sem_inference.
Qed.

Lemma forward_inference (init : nat) (feed : list (nat * karray V)) (g : list node) :
  forward (with_dropout d num) init false feed g = forward num init false feed g.
Proof.
  unfold forward.
  enough (∀ acc,
            fold_left (λ vals n,
                         (vals ++ [node_value (with_dropout d num) init false feed vals
                                              (length vals) n])%list) g acc
            = fold_left (λ vals n,
                           (vals ++ [node_value num init false feed vals
                                                (length vals) n])%list) g acc)
    as Hacc by apply Hacc.
  induction g as [|n g IH]; intros acc; [done|].
  cbn [fold_left]. rewrite node_value_inference. apply IH.
Qed.

Lemma keras_inference {B} (c : call (KH V) B) (w : world) :
  inference_only B c → keras (with_dropout d num) B c w = keras num B c w.
Proof.
  destruct c; try done. cbn [inference_only]. intros ->.
  cbn [keras]. unfold run. change (negb (0 =? 0)%Z) with false.
  by rewrite forward_inference.
Qed.

Lemma interp_inference {A} (p : prog (KH V) A) (w : world) :
  calls_only inference_only p →
  interp (keras (with_dropout d num)) p w = interp (keras num) p w.
Proof.
  intros Hp. revert w. induction Hp as [a | B c k Hc Hk IH]; intros w; [done|].
  cbn [interp]. rewrite keras_inference by done.
  destruct (keras num B c w) as [[b w']|]; [apply IH | done].
Qed.
End Inference.

Lemma declaration_inference {H} (B : Type) (c : call H B) :
  is_declaration B c → inference_only B c.
Proof. by destruct c. Qed.

Lemma main_inference_only {H} : calls_only inference_only (main (H:=H)).
Proof.
  assert (∀ out : list (ndarray H), calls_only inference_only (str_out_0_1_1_0 out)) as Hstr.
  { intros out. unfold str_out_0_1_1_0.
    repeat (apply calls_only_bind; [by apply calls_only_perform | intros ?]).
    by apply calls_only_perform. }
  assert (∀ X f c s, calls_only inference_only (residual_block (H:=H) X f c s)) as Hrb.
  { intros. eapply calls_only_weaken;
      [apply declaration_inference | apply residual_block_declares]. }
  assert (∀ shp, calls_only inference_only (cell_detector (H:=H) shp)) as Hcd.
  { intros. eapply calls_only_weaken;
      [apply declaration_inference | apply cell_detector_declares]. }
  unfold main, test_residual_block, test_cell_detector.
  repeat (apply calls_only_bind;
          [try first [by apply calls_only_perform | apply Hstr | apply Hrb | apply Hcd]
          | intros ?]).
  all: by apply calls_only_perform.
Qed.

(** X7. The smoke test asks for its forward passes with the learning
    phase 0 only: on Keras, run as a script or imported, from every state,
    the module gives the same result, with the same events, whatever
    Dropout does in training. *)
Theorem smoke_test_ignores_dropout {V : Type} (num : numerics V) (d : Qc → V → V)
    (name : string) (w : world) :
  calls_only inference_only (module_body (H:=KH V) name)
  ∧ interp (keras (with_dropout d num)) (module_body name) w
    = interp (keras num) (module_body name) w.
Proof.
  assert (calls_only inference_only (module_body (H:=KH V) name)) as Hp.
  { unfold module_body. destruct (decide _); [apply main_inference_only|].
    apply calls_only_ret. }
  split; [exact Hp|]. by apply interp_inference.
Qed.

(** ** Too small, or not a multiple of 16 *)

Ltac too_small := cbn [failure_kind]; split; [reflexivity|]; size_facts; lia.

Ltac not_multiple :=
  cbn [failure_kind]; split; [reflexivity|]; size_facts;
  split; [lia|]; split; [lia|];
  let k1 := fresh in let k2 := fresh in let E1 := fresh in let E2 := fresh in
  intros [[k1 E1] [k2 E2]]; lia.

Ltac kind_pool :=
  lazymatch goal with
  | |- context [shape_env (IApply (LAveragePooling2D (2, 2) valid) ?ins :: ?rest) ?d ?env] =>
      rewrite (shape_env_cons (LAveragePooling2D (2, 2) valid) ins rest d env);
      cbn [fmap list_fmap nth]; rewrite infer_pool; cbn [batch height width chans];
      let h := fresh "h" in
      let w := fresh "w" in
      let Hh := fresh "Hh" in
      let Hw := fresh "Hw" in
      lazymatch goal with
      | |- context [match out_len valid ?x 2 2 with _ => _ end] =>
          destruct (out_len valid x 2 2) as [h|] eqn:Hh; [|too_small]
      end;
      lazymatch goal with
      | |- context [match out_len valid ?x 2 2 with _ => _ end] =>
          destruct (out_len valid x 2 2) as [w|] eqn:Hw; [|too_small]
      end;
      cbn [app]
  end.

Ltac kind_concat :=
  lazymatch goal with
  | |- context [shape_env (IApply (LConcatenate (-1)) ?ins :: ?rest) ?d ?env] =>
      rewrite (shape_env_cons (LConcatenate (-1)) ins rest d env);
      cbn [fmap list_fmap nth]; rewrite infer_concat;
      cbn [batch height width chans opos_eqb andb];
      let Hh := fresh "Hc" in
      let Hw := fresh "Hd" in
      lazymatch goal with
      | |- context [(?a =? ?b) && _] =>
          destruct (Pos.eqb_spec a b) as [Hh|Hh]; cbn [andb]; [|not_multiple]
      end;
      lazymatch goal with
      | |- context [if (?a =? ?b) then _ else _] =>
          destruct (Pos.eqb_spec a b) as [Hw|Hw]; [|not_multiple]
      end;
      cbn [app]
  end.

Lemma cd_failure_kind (H W C : positive) :
  failure_kind H W (shape_env cd_body (Shape None H W C) [Shape None H W C]).
Proof.
  unfold cd_body. repeat first [walk_plain | kind_pool | kind_concat].
  cbn [failure_kind]. size_facts.
  split; [exists h2 | exists w2]; lia.
Qed.


(** ** Layer names *)

Lemma layer_name_explicit (l : layer) (name : string) (u : gmap string nat) :
  explicit_name l = Some name → layer_name l u = (name, u).
Proof. unfold layer_name. by intros ->. Qed.

Lemma layer_name_auto (l : layer) (u : gmap string nat) :
  explicit_name l = None →
  layer_name l u
  = (layer_prefix l +:+ "_" +:+ pretty (S (default 0%nat (u !! layer_prefix l))),
     <[layer_prefix l := S (default 0%nat (u !! layer_prefix l))]> u).
Proof. unfold layer_name. by intros ->. Qed.

Lemma uids_after_count (c : list instr) (u : gmap string nat) (p : string) :
  default 0%nat (uids_after c u !! p) = (default 0%nat (u !! p) + count_auto p c)%nat.
Proof.
  revert u. induction c as [|[l ins] c IH]; intros u; [simpl; lia|].
  rewrite uids_after_cons, IH. cbn [count_auto layer_of].
  destruct (explicit_name l) as [name|] eqn:He.
  - by rewrite (layer_name_explicit l name u He).
  - rewrite (layer_name_auto l u He). cbn [snd].
    destruct (String.eqb_spec (layer_prefix l) p) as [->|Hne].
    + rewrite lookup_insert_eq. simpl. lia.
    + by rewrite lookup_insert_ne.
Qed.

Lemma name_at_key (u : gmap string nat) (c : list instr) (k : nat) (i : instr) :
  c !! k = Some i → name_at u c k = name_of u (key_of (take k c) i).
Proof.
  intros Hk. unfold name_at, key_of. rewrite Hk.
  destruct (explicit_name (layer_of i)) as [name|] eqn:He.
  - by rewrite (layer_name_explicit _ name _ He).
  - rewrite (layer_name_auto _ _ He). cbn [fst name_of].
    by rewrite uids_after_count.
Qed.

Lemma diverge_app (a b x y : string) :
  diverge a b = true → a +:+ x ≠ b +:+ y.
Proof.
  revert b. induction a as [|ca a IH]; intros [|cb b]; simpl; try done.
  destruct (Ascii.eqb_spec ca cb) as [->|Hne].
  - intros Hd [= Heq]. by eapply IH.
  - intros _ [= ? _]. done.
Qed.

Lemma diverge_sym (a b : string) : diverge a b = diverge b a.
Proof.
  revert b. induction a as [|ca a IH]; intros [|cb b]; simpl; try done.
  rewrite (Ascii.eqb_sym ca cb). destruct (Ascii.eqb cb ca); [apply IH | done].
Qed.

Lemma app_empty_r (a : string) : a +:+ EmptyString = a.
Proof.
  induction a as [|c a IH]; [done|].
  change (String c (a +:+ EmptyString) = String c a). by rewrite IH.
Qed.

Lemma separated_sound (u : gmap string nat) (k1 k2 : name_key) :
  separated k1 k2 = true → name_of u k1 ≠ name_of u k2.
Proof.
  destruct k1 as [a|[p n]], k2 as [b|[q m]]; cbn [separated name_of].
  - rewrite negb_true_iff. by intros ?%String.eqb_neq.
  - intros Hd Heq. eapply (diverge_app a q EmptyString); [exact Hd|].
    rewrite app_empty_r. exact Heq.
  - intros Hd Heq. eapply (diverge_app b p EmptyString); [exact Hd|].
    rewrite app_empty_r. symmetry. exact Heq.
  - destruct (String.eqb_spec p q) as [->|Hne].
    + rewrite negb_true_iff. intros Hnm%Nat.eqb_neq Heq.
      apply (inj (String.app q)), (inj (String.app "_")), (inj pretty) in Heq. lia.
    + by apply diverge_app.
Qed.

Lemma all_separated_NoDup (u : gmap string nat) (ks : list name_key) :
  all_separated ks = true → NoDup (name_of u <$> ks).
Proof.
  induction ks as [|k ks IH]; simpl; [constructor|].
  rewrite andb_true_iff. intros [Hk Hks]. constructor; [|by apply IH].
  rewrite list_elem_of_fmap. intros (k' & Heq & Hin).
  rewrite forallb_forall in Hk. apply list_elem_of_In in Hin.
  by apply (separated_sound u k k' (Hk k' Hin)).
Qed.

Lemma cd_model_names (shp : shape3) (u : gmap string nat) (b : nat) (new : list shape) :
  layer_names (cd_model shp u b new) = name_of u <$> keys (cd_code shp).
Proof.
  unfold layer_names, cd_model, cd_nodes, rel_nodes, keys. cbn [m_layers].
  apply list_eq. intros k.
  rewrite !list_lookup_fmap, !list_lookup_imap.
  destruct (cd_code shp !! k) as [i|] eqn:Hk; [|done].
  simpl. f_equal. by apply name_at_key.
Qed.

(** X9. In every state of the framework, the names of the 90 layers of a
    model [cell_detector] builds are pairwise different: the eighteen names
    res_<stage>_branch_2_a and 2_b given by [residual_block], and for the
    other layers the class prefix with a number that continues the
    framework's counter for the class. *)
Theorem cell_detector_names_unique {V : Type} (num : numerics V)
    (input_shape : shape3) (w : world) :
  match interp (keras num) (cell_detector input_shape) w with
  | Ok (m, _) =>
      NoDup (layer_names m)
      ∧ layer_names m = name_of (uids w) <$> keys (cd_code input_shape)
      ∧ omap (λ k, match k with inl name => Some name | inr _ => None end)
             (keys (cd_code input_shape))
        = mjoin ((λ cs, ["res_" +:+ pretty (cs_stage cs) +:+ "_branch_2_a";
                         "res_" +:+ pretty (cs_stage cs) +:+ "_branch_2_b"])
                 <$> cd_calls)
  | Raise e => is_shape_error e = true
  end.
Proof.
  destruct (interp (keras num) (cell_detector input_shape) w) as [[m w']|e] eqn:Hrun.
  - rewrite cell_detector_run in Hrun.
    destruct (shape_run cd_body _ _) as [new|]; [|done]. injection Hrun as <- _.
    rewrite cd_model_names. split; [|split; [reflexivity|]].
    + apply all_separated_NoDup. vm_compute. reflexivity.
    + vm_compute. reflexivity.
  - apply cell_detector_raise in Hrun.
    by destruct e as [[]| [] | | | | | | | | | |].
Qed.

Lemma string_length_app (a b : string) :
  String.length (a +:+ b) = (String.length a + String.length b)%nat.
Proof.
  induction a as [|x a IH]; [done|].
  change (S (String.length (a +:+ b)) = S (String.length a + String.length b)).
  by rewrite IH.
Qed.

Lemma app_cancel_r (a b c : string) : a +:+ c = b +:+ c → a = b.
Proof.
  intros Heq.
  assert (String.length a = String.length b) as Hlen.
  { apply (f_equal String.length) in Heq. rewrite !string_length_app in Heq. lia. }
  revert b Heq Hlen. induction a as [|x a IH]; intros [|y b] Heq Hlen; try done.
  injection Heq as -> Heq. f_equal. apply IH; [done|]. by injection Hlen.
Qed.

Lemma conv_name_stage (s1 s2 : Z) (suffix : string) :
  ("res_" +:+ pretty s1 +:+ "_branch_") +:+ suffix
  = ("res_" +:+ pretty s2 +:+ "_branch_") +:+ suffix →
  s1 = s2.
Proof.
  intros Heq. apply app_cancel_r in Heq.
  apply (inj (String.app "res_")) in Heq.
  apply app_cancel_r in Heq. by apply (inj pretty) in Heq.
Qed.

(** X10. The layers of a residual block are named from [stage] and the
    framework's counters: the two 3x3 convolutions are
    res_<stage>_branch_2_a and 2_b whatever the state of the framework,
    the other six layers get the next numbers of their classes.  Different
    stages give different convolution names; two blocks with the same
    stage are built without complaint and leave two pairs of layers with
    the same name in the graph. *)
Theorem residual_block_names {V : Type} (num : numerics V) (X : ktensor)
    (F1 F2 channels : positive) (stage : Z) (w : world) :
  let conv_base_name := "res_" +:+ pretty stage +:+ "_branch_" in
  match interp (keras num) (residual_block (H:=KH V) X (F1, F2) channels stage) w with
  | Ok (_, w') =>
      n_name <$> drop (length (graph w)) (graph w')
      = name_of (uids w)
        <$> [inr ("elu", 0%nat); inl (conv_base_name +:+ "2_a"); inr ("dropout", 0%nat);
             inr ("elu", 1%nat); inl (conv_base_name +:+ "2_b"); inr ("lambda", 0%nat);
             inr ("add", 0%nat); inr ("conv2d", 0%nat)]
  | Raise e => is_add_error e = true
  end
  ∧ (∀ stage' suffix,
       conv_base_name +:+ suffix = ("res_" +:+ pretty stage' +:+ "_branch_") +:+ suffix →
       stage = stage')
  ∧ (∀ G1 G2 channels',
       match interp (keras num)
               (two_blocks (H:=KH V) X (F1, F2) channels stage (G1, G2) channels' stage) w
       with
       | Ok (_, w') =>
           let b := length (graph w) in
           n_name <$> graph w' !! (b + 1)%nat = Some (conv_base_name +:+ "2_a")
           ∧ n_name <$> graph w' !! (b + 9)%nat = Some (conv_base_name +:+ "2_a")
           ∧ n_name <$> graph w' !! (b + 4)%nat = Some (conv_base_name +:+ "2_b")
           ∧ n_name <$> graph w' !! (b + 12)%nat = Some (conv_base_name +:+ "2_b")
       | Raise e => is_add_error e = true
       end).
Proof.
  cbv zeta. split; [|split].
  - rewrite residual_block_run.
    destruct (broadcast_dim F2 (chans (t_shape X))) as [c|]; [|done].
    unfold block_world. cbn [graph]. rewrite drop_app_length.
    unfold block_nodes, block_names. cbn [fmap list_fmap n_name].
    set (code := (λ l, IApply l []) <$> block_layers F1 F2 channels stage).
    rewrite (name_at_key (uids w) code 0 _ eq_refl),
            (name_at_key (uids w) code 1 _ eq_refl),
            (name_at_key (uids w) code 2 _ eq_refl),
            (name_at_key (uids w) code 3 _ eq_refl),
            (name_at_key (uids w) code 4 _ eq_refl),
            (name_at_key (uids w) code 5 _ eq_refl),
            (name_at_key (uids w) code 6 _ eq_refl),
            (name_at_key (uids w) code 7 _ eq_refl).
    reflexivity.
  - intros stage' suffix. apply conv_name_stage.
  - intros G1 G2 ch'. unfold two_blocks. rewrite interp_bind, residual_block_run.
    destruct (broadcast_dim F2 (chans (t_shape X))) as [c|]; [|done].
    rewrite residual_block_run. cbn [t_shape with_chans chans].
    destruct (broadcast_dim G2 channels) as [c'|]; [|done].
    unfold block_world. cbn [graph uids]. cbv zeta.
    rewrite <-!app_assoc.
    rewrite (lookup_app_r (graph w) _ (length (graph w) + 1)),
            (lookup_app_r (graph w) _ (length (graph w) + 4)),
            (lookup_app_r (graph w) _ (length (graph w) + 9)),
            (lookup_app_r (graph w) _ (length (graph w) + 12)) by lia.
    replace (length (graph w) + 1 - length (graph w))%nat with 1%nat by lia.
    replace (length (graph w) + 4 - length (graph w))%nat with 4%nat by lia.
    replace (length (graph w) + 9 - length (graph w))%nat with 9%nat by lia.
    replace (length (graph w) + 12 - length (graph w))%nat with 12%nat by lia.
    repeat split; reflexivity.
Qed.

(** ** The number of input channels *)

Lemma shape_run_ignores (c : list instr) :
  ∀ (env : list shape) (x x' d d' : shape),
    reads 0 c = false → closed (S (length env)) c = true →
    shape_run c d (x :: env) = shape_run c d' (x' :: env).
Proof.
  induction c as [|[l ins] c IH]; intros env x x' d d' Hr Hc; [done|].
  cbn [reads existsb inputs_of] in Hr. apply orb_false_elim in Hr as [Hi Hr].
  cbn [closed inputs_of] in Hc. apply andb_true_iff in Hc as [Hb Hc].
  cbn [shape_run layer_of inputs_of].
  assert ((λ j, nth j (x :: env) d) <$> ins = (λ j, nth j (x' :: env) d') <$> ins) as ->.
  { apply list_fmap_ext. intros k j Hj.
    assert (j ≠ 0)%nat as Hj0.
    { intros ->. unfold mem in Hi. rewrite <-not_true_iff_false in Hi. apply Hi.
      apply existsb_exists. exists 0%nat. split; [|done].
      apply list_elem_of_In. by eapply list_elem_of_lookup_2. }
    rewrite forallb_forall in Hb.
    assert (j < S (length env))%nat as Hlt.
    { apply Nat.ltb_lt, Hb, list_elem_of_In. by eapply list_elem_of_lookup_2. }
    destruct j as [|j]; [done|]. cbn [nth]. apply nth_indep. lia. }
  destruct (infer_shape l _) as [s|e]; [|done].
  change ((x :: env) ++ [s])%list with (x :: (env ++ [s]))%list.
  change ((x' :: env) ++ [s])%list with (x' :: (env ++ [s]))%list.
  rewrite (IH (env ++ [s])%list x x' d d'); [done | exact Hr|].
  rewrite length_app. cbn [length]. by rewrite Nat.add_1_r.
Qed.

Lemma cd_shape_run_channels (H W C C' : positive) :
  shape_run cd_body (Shape None H W C) [Shape None H W C]
  = shape_run cd_body (Shape None H W C') [Shape None H W C'].
Proof.
  change cd_body with (IApply (LConv2D 32 (3, 3) (1, 1) same None) [0%nat] :: tail cd_body).
  cbn [shape_run layer_of inputs_of fmap list_fmap nth].
  rewrite !infer_same. unfold with_chans. cbn [batch height width app].
  by rewrite (shape_run_ignores (tail cd_body) [Shape None H W 32]
                (Shape None H W C) (Shape None H W C')
                (Shape None H W C) (Shape None H W C') eq_refl eq_refl).
Qed.

Lemma cd_table_tail (shp : shape3) (x : shape) (new : list shape) :
  tail (cd_table shp (x :: new))
  = imap (λ k i, Row (OpLayer (layer_of i)) (inputs_of i) (nth k new dummy_shape)) cd_body.
Proof. reflexivity. Qed.


(** ** Calling the model on a new input *)

Lemma entries_cons (b0 off : nat) (nm : nat → string) (sh : nat → shape)
    (i : instr) (c : list instr) :
  entries b0 off nm sh (i :: c)
  = ((b0 + off)%nat,
     Node (OpLayer (layer_of i)) (nm 0%nat) (Nat.add b0 <$> inputs_of i) (sh 0%nat))
    :: entries b0 (S off) (nm ∘ S) (sh ∘ S) c.
Proof.
  unfold entries. rewrite imap_cons. f_equal; [by rewrite Nat.add_0_r|].
  apply imap_ext. intros k j _. simpl. do 2 f_equal. lia.
Qed.

Lemma tmap_of_snoc (b0 : nat) (env : list ktensor) (t : ktensor) :
  tmap_of b0 (env ++ [t]) = ((b0 + length env)%nat, t) :: tmap_of b0 env.
Proof.
  unfold tmap_of. rewrite imap_app, reverse_app. simpl.
  by rewrite Nat.add_0_r.
Qed.

Lemma tlookup_tmap_of (b0 : nat) (env : list ktensor) (j : nat) :
  tlookup (b0 + j) (tmap_of b0 env) = env !! j.
Proof.
  induction env as [|t env IH] using rev_ind.
  - by destruct j.
  - rewrite tmap_of_snoc. cbn [tlookup].
    destruct (Nat.eqb_spec (b0 + j) (b0 + length env)) as [Heq|Hne].
    + assert (j = length env) as -> by lia.
      by rewrite lookup_app_r, Nat.sub_diag.
    + rewrite IH. destruct (decide (j < length env)%nat) as [Hlt|Hge].
      * by rewrite lookup_app_l.
      * rewrite !lookup_ge_None_2; [done| |lia]. rewrite length_app. simpl. lia.
Qed.

Lemma replay_inputs (b0 : nat) (env : list ktensor) (d : ktensor) (ins : list nat) :
  forallb (λ j, j <? length env)%nat ins = true →
  mapM (λ j, tlookup j (tmap_of b0 env)) (Nat.add b0 <$> ins)
  = Some ((λ j, nth j env d) <$> ins).
Proof.
  induction ins as [|j ins IH]; [done|].
  cbn [forallb]. rewrite andb_true_iff. intros [Hj Hins].
  apply Nat.ltb_lt in Hj.
  rewrite fmap_cons. cbn [mapM]. rewrite tlookup_tmap_of.
  destruct (lookup_lt_is_Some_2 env j Hj) as [t Ht]. rewrite Ht.
  cbn [mbind option_bind]. rewrite (IH Hins). cbn [mbind option_bind mret option_ret].
  rewrite fmap_cons. do 2 f_equal. symmetry. by apply nth_lookup_Some.
Qed.

Lemma new_tensors_cons (base : nat) (s : shape) (ss : list shape) :
  new_tensors base (s :: ss) = Tensor base s :: new_tensors (S base) ss.
Proof.
  unfold new_tensors. rewrite imap_cons. f_equal; [by rewrite Nat.add_0_r|].
  apply imap_ext. intros k t _. simpl. f_equal. lia.
Qed.

Lemma replay_code (b0 : nat) (d : ktensor) (c : list instr) :
  ∀ (nm : nat → string) (sh : nat → shape) (env : list ktensor) (w : world),
    closed (length env) c = true →
    no_input c = true →
    match shape_run c (t_shape d) (t_shape <$> env) with
    | Raise e => replay (entries b0 (length env) nm sh c) (tmap_of b0 env) w = Raise e
    | Ok new =>
        ∃ added,
          replay (entries b0 (length env) nm sh c) (tmap_of b0 env) w
          = Ok (tmap_of b0 (env ++ new_tensors (length (graph w)) new),
                World (uids w) (graph w ++ added) (session w) (initialized w) (rng w)
                      (stdout w))
          ∧ n_name <$> added = nm <$> seq 0 (length c)
          ∧ n_op <$> added = (λ i, OpLayer (layer_of i)) <$> c
          ∧ n_shape <$> added = new
    end.
Proof.
  induction c as [|[l ins] c IH]; intros nm sh env w Hcl Hni.
  - cbn [shape_run]. exists []. rewrite !app_nil_r. by destruct w.
  - cbn [closed inputs_of] in Hcl. apply andb_true_iff in Hcl as [Hins Hcl].
    cbn [no_input forallb layer_of] in Hni. apply andb_true_iff in Hni as [Hl Hni].
    rewrite entries_cons. cbn [shape_run layer_of inputs_of replay n_op n_inputs n_name].
    assert (is_input_node (Node (OpLayer l) (nm 0%nat) (Nat.add b0 <$> ins) (sh 0%nat))
            = false) as ->.
    { unfold is_input_node. cbn [n_op]. by destruct l. }
    rewrite (replay_inputs b0 env d ins Hins).
    unfold apply_layer.
    assert (t_shape <$> ((λ j, nth j env d) <$> ins)
            = (λ j, nth j (t_shape <$> env) (t_shape d)) <$> ins) as ->.
    { rewrite <-list_fmap_compose. apply list_fmap_ext. intros k j _. simpl.
      symmetry. apply (map_nth t_shape). }
    destruct (infer_shape l _) as [s|e]; [|done].
    set (t := Tensor (length (graph w)) s).
    set (n := Node (OpLayer l) (nm 0%nat) (t_id <$> ((λ j, nth j env d) <$> ins)) s).
    specialize (IH (nm ∘ S) (sh ∘ S) (env ++ [t])%list (add_node n (uids w) w)).
    rewrite length_app in IH. cbn [length] in IH. rewrite Nat.add_1_r in IH.
    specialize (IH Hcl Hni).
    rewrite fmap_app in IH. cbn [fmap list_fmap t_shape t] in IH.
    rewrite <-tmap_of_snoc.
    destruct (shape_run c (t_shape d) _) as [new|e]; [|exact IH].
    destruct IH as (added & Hrun & Hnames & Hops & Hshapes).
    exists (n :: added). rewrite Hrun. split; [|split; [|split]].
    + unfold add_node. cbn [graph uids session initialized rng stdout].
      rewrite length_app. cbn [length]. rewrite Nat.add_1_r.
      rewrite new_tensors_cons, <-!app_assoc. reflexivity.
    + cbn [fmap list_fmap length seq n_name n]. f_equal.
      rewrite Hnames. by rewrite <-fmap_S_seq, <-list_fmap_compose.
    + cbn [fmap list_fmap n_op n layer_of]. by rewrite Hops.
    + cbn [fmap list_fmap n_shape n]. by rewrite Hshapes.
Qed.

Lemma cd_shapes_batch (bt : option positive) (h w C : positive) :
  shape_env cd_body (Shape bt (16 * h) (16 * w) C) [Shape bt (16 * h) (16 * w) C]
  = Ok (with_batch bt <$> cd_shapes h w C).
Proof.
  change (16 * h) with h~0~0~0~0. change (16 * w) with w~0~0~0~0.
  unfold cd_body. destruct bt as [b|]; repeat walk_even; reflexivity.
Qed.

Lemma cd_shape_run_batch (bt : option positive) (h w C : positive) :
  shape_run cd_body (Shape bt (16 * h) (16 * w) C) [Shape bt (16 * h) (16 * w) C]
  = Ok (with_batch bt <$> tail (cd_shapes h w C)).
Proof.
  pose proof (cd_shapes_batch bt h w C) as Henv. rewrite shape_env_run in Henv.
  destruct (shape_run cd_body _ _) as [new|]; [|done].
  injection Henv as Henv. f_equal.
  rewrite Henv. reflexivity.
Qed.

Lemma cd_model_layers (shp : shape3) (u : gmap string nat) (b0 : nat) (new : list shape) :
  m_layers (cd_model shp u b0 new)
  = (b0, Node (OpLayer (LInput shp)) (layer_name (LInput shp) u).1 []
              (input_shape_of shp))
    :: entries b0 1 (name_at (layer_name (LInput shp) u).2 cd_body)
               (λ k, nth k new dummy_shape) cd_body.
Proof.
  unfold cd_model. cbn [m_layers]. rewrite cd_nodes_cons.
  rewrite imap_cons, fmap_cons. f_equal.
  unfold shift_entry, shift. cbn [fst snd n_op n_name n_inputs n_shape fmap list_fmap].
  by rewrite Nat.add_0_r.
Qed.

Lemma replay_input (i : nat) (shp : shape3) (name : string) (ins : list nat)
    (s : shape) (rest : list (nat * node)) (tmap : list (nat * ktensor)) (w : world) :
  replay ((i, Node (OpLayer (LInput shp)) name ins s) :: rest) tmap w
  = replay rest tmap w.
Proof. reflexivity. Qed.

(** The columns of the layer table are those of the layers. *)
Lemma layer_columns (m : kmodel) :
  tail (layer_names m) = n_name <$> tail ((m_layers m).*2)
  ∧ tail (r_op <$> table m) = n_op <$> tail ((m_layers m).*2)
  ∧ tail (r_shape <$> table m) = n_shape <$> tail ((m_layers m).*2).
Proof.
  unfold layer_names, table. destruct (m_layers m) as [|jn l]; [done|].
  rewrite !fmap_cons. cbn [tail]. rewrite <-!list_fmap_compose. done.
Qed.

(** X12. Calling the model [cell_detector] returned for (16h, 16w, C) on a
    tensor of that size and number of channels, with any batch size, gives
    a tensor of the same batch, height and width with one channel.  The
    call adds 89 nodes to the graph: in some order, one for each layer of
    the model after the input, under the name the layer has in the model
    (the layers, and so their weights, are shared), with the shape the
    layer has in the model at the batch size of the new input; it draws no
    new layer name and leaves session, initialised variables and output as
    they were. *)
Theorem model_call_shares_layers {V : Type} (num : numerics V) (h wd C : positive)
    (w : world) (ix : nat) (bt : option positive) :
  let x := Tensor ix (Shape bt (16 * h) (16 * wd) C) in
  ∃ m w1 A w2 added applied,
    interp (keras num) (cell_detector (16 * h, 16 * wd, C)) w = Ok (m, w1)
    ∧ interp (keras num) (perform (CallModel (H:=KH V) m x)) w1 = Ok (A, w2)
    ∧ t_shape A = Shape bt (16 * h) (16 * wd) 1
    ∧ graph w2 = (graph w1 ++ added)%list
    ∧ length added = 89%nat
    ∧ applied ≡ₚ tail ((m_layers m).*2)
    ∧ n_name <$> added = n_name <$> applied
    ∧ n_op <$> added = n_op <$> applied
    ∧ n_shape <$> added = with_batch bt ∘ n_shape <$> applied
    ∧ uids w2 = uids w1 ∧ session w2 = session w1
    ∧ initialized w2 = initialized w1 ∧ stdout w2 = stdout w1.
Proof.
  intros x.
  destruct (cell_detector_built num h wd C w) as (m & w1 & Hrun & Ht & _).
  exists m, w1. pose proof Hrun as Hm. rewrite cell_detector_run in Hm.
  destruct (shape_run cd_body _ _) as [new|] eqn:Hnew; [|done].
  injection Hm as Hm _.
  assert (new = tail (cd_shapes h wd C)) as Hnew'.
  { pose proof (cd_shape_run_batch None h wd C) as Hb.
    change (input_shape_of (16 * h, 16 * wd, C))
      with (Shape None (16 * h) (16 * wd) C) in Hnew.
    rewrite Hnew in Hb. injection Hb as ->. vm_compute. reflexivity. }
  destruct (layer_columns m) as (Hcn & Hco & Hcs).
  rewrite interp_perform. cbn [keras]. unfold call_model.
  assert (∃ added,
            replay (m_layers m) [(t_id (m_input m), x)] w1
            = Ok (tmap_of (length (graph w))
                    ([x] ++ new_tensors (length (graph w1))
                                        (with_batch bt <$> tail (cd_shapes h wd C))),
                  World (uids w1) (graph w1 ++ added) (session w1) (initialized w1)
                        (rng w1) (stdout w1))
            ∧ t_id (m_output m) = (length (graph w) + 89)%nat
            ∧ n_name <$> added = tail (layer_names m)
            ∧ n_op <$> added = tail (r_op <$> table m)
            ∧ n_shape <$> added = with_batch bt <$> tail (cd_shapes h wd C))
    as (added & Hre & Hout & Hnames & Hops & Hshapes).
  { clear Hcn Hco Hcs. subst m. rewrite cd_model_layers, replay_input.
    cbn [cd_model m_input m_output t_id].
    pose proof (replay_code (length (graph w)) x cd_body
                  (name_at (layer_name (LInput (16 * h, 16 * wd, C)) (uids w)).2 cd_body)
                  (λ k, nth k new dummy_shape) [x] w1 eq_refl eq_refl) as Hre.
    cbn [fmap list_fmap t_shape x] in Hre.
    rewrite (cd_shape_run_batch bt h wd C) in Hre.
    destruct Hre as (added & Hre & Hnames & Hops & Hshapes).
    change (tmap_of (length (graph w)) [x])
      with [((length (graph w) + 0)%nat, x)] in Hre.
    rewrite Nat.add_0_r in Hre. cbn [length] in Hre.
    exists added. split; [exact Hre|]. split; [done|]. split; [|split; [|done]].
    - rewrite Hnames. change (length cd_body) with 89%nat.
      unfold layer_names. rewrite cd_model_layers.
      cbn [fmap list_fmap tail]. unfold entries.
      apply list_eq. intros k. rewrite !list_lookup_fmap, list_lookup_imap.
      destruct (decide (k < 89)%nat) as [Hk|Hk].
      + rewrite lookup_seq_lt by done.
        destruct (lookup_lt_is_Some_2 cd_body k Hk) as [i Hi]. by rewrite Hi.
      + rewrite lookup_seq_ge by lia.
        rewrite lookup_ge_None_2; [done|]. change (length cd_body) with 89%nat. lia.
    - rewrite Hops, table_cd_model. unfold cd_table, cd_code.
      rewrite imap_cons. cbn [fmap list_fmap tail].
      apply list_eq. intros k. rewrite !list_lookup_fmap, list_lookup_imap.
      by destruct (cd_body !! k). }
  rewrite Hre, Hout, tlookup_tmap_of.
  exists (Tensor (length (graph w1) + 88) (Shape bt (16 * h) (16 * wd) 1)),
    (World (uids w1) (graph w1 ++ added) (session w1) (initialized w1) (rng w1) (stdout w1)),
    added, (tail ((m_layers m).*2)).
  split; [done|]. split.
  { change (([x] ++ ?l)%list !! 89%nat) with (l !! 88%nat).
    unfold new_tensors. rewrite list_lookup_imap, list_lookup_fmap.
    reflexivity. }
  split; [done|]. split; [done|].
  split; [by rewrite <-(length_fmap n_shape), Hshapes, length_fmap|].
  split; [done|].
  split; [by rewrite Hnames|]. split; [by rewrite Hops|].
  split; [|done].
  rewrite Hshapes, list_fmap_compose, <-Hcs, Ht. vm_compute. reflexivity.
Qed.
